(** * ChronoTravel: the location / photo generation workflow

    A shallow embedding of the workflow of the chrono-map-photo
    application: the resolver and the image client of
    [services/geminiService.ts], the orchestrator of [App.tsx] and the
    disambiguation predicate of [components/Sidebar.tsx].

    Conventions of the embedding.
    - A JavaScript string is a [string] (a sequence of bytes); every
      literal the code compares against is ASCII.
    - An integer-valued JavaScript number is a [Z]; [NaN] is [None].
      The embedding is exact while the magnitude stays within
      [MAX_SAFE_INTEGER].  Map coordinates, which are never computed
      with, are rationals (every finite double is one) and are printed by
      the host's [Number_toString].
    - A value that may be [undefined] is an [option].
    - An [async] function that may throw is a function of the event
      history that returns either the thrown error or the value, together
      with the extended history. *)

From Stdlib Require Import String Ascii List Bool Arith ZArith QArith Qround Lia.
From Stdlib Require Import DecimalString DecimalPos.
From Equations Require Import Equations.
Import ListNotations.

Local Open Scope string_scope.
Local Open Scope Z_scope.

(* ===================================================================== *)
(** ** The JavaScript built-ins the code relies on *)
(* ===================================================================== *)

Module JS.

(** The character U+0022, which delimits string literals in the source. *)
Definition dquote : string := String (ascii_of_nat 34) EmptyString.

(** [s.startsWith(p)], returning the remainder of [s]. *)
Fixpoint stripPrefix (p s : string) : option string :=
  match p, s with
  | EmptyString, _ => Some s
  | String a p', String b s' =>
      if Ascii.eqb a b then stripPrefix p' s' else None
  | String _ _, EmptyString => None
  end.

Definition startsWith (s p : string) : bool :=
  match stripPrefix p s with Some _ => true | None => false end.

(** [s.includes(sub)]. *)
Fixpoint includes (s sub : string) : bool :=
  if startsWith s sub then true
  else match s with
       | EmptyString => false
       | String _ s' => includes s' sub
       end.

(** Truthiness of a possibly undefined string: [undefined] and the empty
    string are falsy. *)
Definition truthy (o : option string) : bool :=
  match o with
  | Some (String _ _) => true
  | _ => false
  end.

(** [a || b] on a possibly undefined string [a]. *)
Definition orElse (a : option string) (b : string) : string :=
  match a with
  | Some (String c s) => String c s
  | _ => b
  end.

(** A default parameter value, which replaces [undefined] only. *)
Definition defaultTo (a : option string) (d : string) : string :=
  match a with Some s => s | None => d end.

(** Interpolation of a possibly undefined string in a template literal. *)
Definition interpolate (a : option string) : string :=
  match a with Some s => s | None => "undefined" end.

(** A template literal: the concatenation of its chunks. *)
Definition template (chunks : list string) : string :=
  String.concat "" chunks.

(** *** Digits *)

Definition isDigit (c : ascii) : bool :=
  let n := nat_of_ascii c in (48 <=? n)%nat && (n <=? 57)%nat.

Definition digitValue (c : ascii) : option Z :=
  let n := Z.of_nat (nat_of_ascii c) in
  if (48 <=? n) && (n <=? 57) then Some (n - 48)
  else if (97 <=? n) && (n <=? 122) then Some (n - 87)
  else if (65 <=? n) && (n <=? 90) then Some (n - 55)
  else None.

Definition radixDigit (radix : Z) (c : ascii) : option Z :=
  match digitValue c with
  | Some d => if d <? radix then Some d else None
  | None => None
  end.

(** The white space [parseInt] skips (the ASCII part of
    StrWhiteSpaceChar: TAB, LF, VT, FF, CR, SP). *)
Definition isWhiteSpace (c : ascii) : bool :=
  let n := nat_of_ascii c in
  ((9 <=? n)%nat && (n <=? 13)%nat) || (n =? 32)%nat.

Fixpoint trimStart (s : string) : string :=
  match s with
  | String c s' => if isWhiteSpace c then trimStart s' else s
  | EmptyString => s
  end.

(** The value of the longest prefix of [s] made of digits of the radix,
    accumulated from [acc]; [seen] tells whether a digit was read. *)
Fixpoint readDigits (radix : Z) (s : string) (seen : bool) (acc : Z)
  : option Z :=
  match s with
  | String c s' =>
      match radixDigit radix c with
      | Some d => readDigits radix s' true (acc * radix + d)
      | None => if seen then Some acc else None
      end
  | EmptyString => if seen then Some acc else None
  end.

(** [parseInt(s)] without a radix argument: leading white space, an
    optional sign, an optional [0x]/[0X] prefix selecting radix 16, then
    the longest run of digits; [None] is [NaN]. *)
Definition parseInt (s : string) : option Z :=
  let s1 := trimStart s in
  let '(sign, s2) :=
    match s1 with
    | String "-" r => (-1, r)
    | String "+" r => (1, r)
    | _ => (1, s1)
    end in
  let '(radix, s3) :=
    match s2 with
    | String "0" (String "x" r) => (16, r)
    | String "0" (String "X" r) => (16, r)
    | _ => (10, s2)
    end in
  match readDigits radix s3 false 0 with
  | Some v => Some (sign * v)
  | None => None
  end.

Definition MAX_SAFE_INTEGER : Z := 2 ^ 53 - 1.

(** [String(n)] for an integer-valued number below 1e21: its decimal
    digits, with a minus sign when negative. *)
Definition Z_toString (n : Z) : string :=
  NilZero.string_of_int (Z.to_int n).

(** *** [parseFloat] on an unsigned decimal literal

    The only argument the code passes to [parseFloat] is the capture
    group of [/retry in ([0-9.]+)s/], a non-empty run of digits and
    dots.  On such a string [parseFloat] reads the longest prefix of the
    form [digits], [digits.], [digits.digits] or [.digits], and returns
    [NaN] when there is none.  The value is kept exact. *)

Fixpoint spanDigits (s : string) : string * string :=
  match s with
  | String c s' =>
      if isDigit c then let '(d, r) := spanDigits s' in (String c d, r)
      else (EmptyString, s)
  | EmptyString => (EmptyString, EmptyString)
  end.

Fixpoint decimalValue (s : string) (acc : Z) : Z :=
  match s with
  | String c s' =>
      decimalValue s' (acc * 10 + (Z.of_nat (nat_of_ascii c) - 48))
  | EmptyString => acc
  end.

Definition parseFloat (s : string) : option Q :=
  let '(ip, r) := spanDigits s in
  let fp := match r with
            | String "." r' => fst (spanDigits r')
            | _ => EmptyString
            end in
  match ip, fp with
  | EmptyString, EmptyString => None
  | _, _ =>
      Some (Qmake (decimalValue fp (decimalValue ip 0))
                  (Z.to_pos (10 ^ Z.of_nat (String.length fp))))
  end.

(** [Math.ceil]. *)
Definition Math_ceil (q : Q) : Z := Qceiling q.

(** *** The two regular expressions of the code *)

Definition isDigitOrDot (c : ascii) : bool :=
  isDigit c || Ascii.eqb c ".".

Fixpoint spanDigitsDots (s : string) : string * string :=
  match s with
  | String c s' =>
      if isDigitOrDot c
      then let '(d, r) := spanDigitsDots s' in (String c d, r)
      else (EmptyString, s)
  | EmptyString => (EmptyString, EmptyString)
  end.


(** [/retry in ([0-9.]+)s/] anchored at the start of [s].  The group is
    greedy; a shorter group would have to be followed by [s] where a
    digit or dot stands, so only the longest run can match. *)
Definition retryInHere (s : string) : option string :=
  match stripPrefix "retry in " s with
  | Some r =>
      match spanDigitsDots r with
      | (String c g, String "s" _) => Some (String c g)
      | _ => None
      end
  | None => None
  end.

(** [s.match(/retry in ([0-9.]+)s/)]: the capture group of the leftmost
    match, or [None] when the pattern does not occur. *)
Fixpoint matchRetryIn (s : string) : option string :=
  match retryInHere s with
  | Some g => Some g
  | None =>
      match s with
      | String _ s' => matchRetryIn s'
      | EmptyString => None
      end
  end.

(** The suffix of [s] that starts at its first opening brace. *)
Fixpoint fromFirstOpen (s : string) : option string :=
  match s with
  | String c s' =>
      if Ascii.eqb c "{" then Some s else fromFirstOpen s'
  | EmptyString => None
  end.

(** The prefix of [s] that ends at its last closing brace. *)
Fixpoint toLastClose (s : string) : option string :=
  match s with
  | String c s' =>
      match toLastClose s' with
      | Some r => Some (String c r)
      | None => if Ascii.eqb c "}" then Some (String c EmptyString) else None
      end
  | EmptyString => None
  end.

(** [s.match(/\{[\s\S]*\}/)]: the match starts at the leftmost opening
    brace after which a closing brace occurs, and the greedy star extends
    it to the last closing brace of [s]. *)
Definition matchBraces (s : string) : option string :=
  match fromFirstOpen s with
  | Some r => toLastClose r
  | None => None
  end.

(** [s.split(',')[1]]. *)
Fixpoint untilComma (s : string) : string :=
  match s with
  | String c s' => if Ascii.eqb c "," then EmptyString else String c (untilComma s')
  | EmptyString => EmptyString
  end.

Fixpoint splitComma1 (s : string) : option string :=
  match s with
  | String c s' => if Ascii.eqb c "," then Some (untilComma s') else splitComma1 s'
  | EmptyString => None
  end.

(** *** Thrown values

    The two properties of a thrown value that the code inspects;
    [undefined] is [None]. *)
Record Thrown := {
  message : option string;
  status : option Z
}.

(** [new Error(msg)]. *)
Definition Error (msg : string) : Thrown :=
  {| message := Some msg; status := None |}.

End JS.


(* ===================================================================== *)
(** ** [types.ts] *)
(* ===================================================================== *)

Record Coordinates := {
  lat : Q;
  lng : Q
}.

Record PointOfInterest := {
  poi_name : string;
  poi_lat : Q;
  poi_lng : Q
}.

Record Weather := {
  temp : string;
  condition : string
}.

Record LocationContext := {
  name : string;
  description : string;
  weather : Weather;
  clothingRecommendation : string;
  isVague : option bool;
  nearbyPOIs : option (list PointOfInterest)
}.

Inductive TimeEra := PAST | PRESENT | FUTURE.

(** The string value of an enum member. *)
Definition TimeEra_value (era : TimeEra) : string :=
  match era with
  | PAST => "Past (Ancient/Historical)"
  | PRESENT => "Present Day"
  | FUTURE => "Future (Sci-Fi/Advanced)"
  end.

Inductive VisualStyle := Realistic | Cinematic | Documentary.

Definition VisualStyle_value (style : VisualStyle) : string :=
  match style with
  | Realistic => "Realistic"
  | Cinematic => "Cinematic"
  | Documentary => "Documentary"
  end.

Inductive AppStatus :=
| idle
| analyzing_location
| ready_to_generate
| generating_image
| complete
| error.

(* ===================================================================== *)
(** ** Errors, the remote service and the host *)
(* ===================================================================== *)

Record InlineData := {
  mimeType : string;
  data : option string
}.

Record Part := {
  text : option string;
  inlineData : option InlineData
}.

Record Content := { parts : option (list Part) }.

Record Candidate := { content : option Content }.

(** The response of [ai.models.generateContent]: its [text] accessor and
    its candidates. *)
Record GenerateContentResponse := {
  response_text : option string;
  candidates : option (list Candidate)
}.

(** The two requests the code sends.  The resolver's prompt is a fixed
    template of the two coordinates, which the request records; the image
    request carries its two parts. *)
Inductive Request :=
| LocationRequest (model : string) (latitude longitude : Q)
| ImageRequest (model : string) (contents : list Part) (aspectRatio : string).

Inductive Event :=
| Sent (apiKey : string) (request : Request)
| Waited (ms : Z).

Definition History := list Event.

(** The remote service: what a request returns or throws, given the
    credential of the client and everything that happened before. *)
Class Backend := {
  generateContent :
    string -> History -> Request -> JS.Thrown + GenerateContentResponse
}.

(** What the host provides: printing of a coordinate, [JSON.parse] (which
    throws on malformed input) and [JSON.stringify] of a thrown value. *)
Class Host := {
  Number_toString : Q -> string;
  JSON_parse : string -> JS.Thrown + LocationContext;
  JSON_stringify : JS.Thrown -> string
}.

(** A computation over a state [S] that may throw: the thrown value or
    the result, with the final state. *)
Definition Eff (S A : Type) : Type := S -> (JS.Thrown + A) * S.

Definition resolve {S A} (a : A) : Eff S A := fun s => (inr a, s).

Definition throw {S A} (e : JS.Thrown) : Eff S A := fun s => (inl e, s).

Definition await {S A B} (m : Eff S A) (k : A -> Eff S B) : Eff S B :=
  fun s =>
    match m s with
    | (inr a, s') => k a s'
    | (inl e, s') => (inl e, s')
    end.

(** [try { m } catch (e) { handler e }]. *)
Definition try_catch {S A} (m : Eff S A) (handler : JS.Thrown -> Eff S A)
  : Eff S A :=
  fun s =>
    match m s with
    | (inr a, s') => (inr a, s')
    | (inl e, s') => handler e s'
    end.

(** [for (const x of xs) { body x }]. *)
Fixpoint for_of {S A} (xs : list A) (body : A -> Eff S unit) : Eff S unit :=
  match xs with
  | [] => resolve tt
  | x :: xs' => await (body x) (fun _ => for_of xs' body)
  end.

Notation "'let*' x ':=' m 'in' k" := (await m (fun x => k))
  (at level 10, x name, m at level 100, k at level 200).

Notation "m ';;' k" := (await m (fun _ => k))
  (at level 61, right associativity).

(** An asynchronous computation of the service layer: its state is the
    history of requests and waits. *)
Definition Async (A : Type) : Type := Eff History A.

(** [await ai.models.generateContent(request)] on a client built with
    [apiKey]. *)
Definition send `{Backend} (apiKey : string) (request : Request)
  : Async GenerateContentResponse :=
  fun h => (generateContent apiKey h request, (h ++ [Sent apiKey request])%list).

(** [await wait(ms)]. *)
Definition wait (ms : Z) : Async unit :=
  fun h => (inr tt, (h ++ [Waited ms])%list).

(* ===================================================================== *)
(** ** [services/geminiService.ts] *)
(* ===================================================================== *)

(** A file chosen by the user: what reading it as a data URL gives, the
    URL or the error event. *)
Record File := { readAsDataURL : JS.Thrown + string }.

(** [blobToBase64]: the data URL without its prefix, the segment after
    the first comma. *)
Definition blobToBase64 (blob : File) : Async (option string) :=
  match readAsDataURL blob with
  | inr base64String => resolve (JS.splitComma1 base64String)
  | inl event => throw event
  end.

(** The record returned when the analysis fails. *)
Definition fallbackLocation : LocationContext :=
  {| name := "Unknown Location";
     description := "Could not retrieve exact location details.";
     weather := {| temp := "--"; condition := "Unknown" |};
     clothingRecommendation := "Casual wear";
     isVague := Some false;
     nearbyPOIs := None |}.

(** The body of the [try] block of [analyzeLocation]. *)
Definition analyzeLocation_try `{Backend} `{Host}
  (lat lng : Q) (apiKey : string) : Async LocationContext :=
  let* response := send apiKey (LocationRequest "gemini-2.5-flash" lat lng) in
  match response_text response with
  | Some (String c t) =>
      let text := String c t in
      let jsonMatch := JS.matchBraces text in
      match jsonMatch with
      | Some json =>
          match JSON_parse json with
          | inr parsed => resolve parsed
          | inl syntaxError => throw syntaxError
          end
      | None => throw (JS.Error "Failed to parse location JSON")
      end
  | _ => throw (JS.Error "No response from AI")
  end.

Definition analyzeLocation `{Backend} `{Host}
  (lat lng : Q) (apiKey : string) : Async LocationContext :=
  match apiKey with
  | EmptyString => throw (JS.Error "API Key is required")
  | String _ _ =>
      try_catch (analyzeLocation_try lat lng apiKey)
                (fun _ => resolve fallbackLocation)
  end.

(** *** The prompt of the image request *)

(** [timeDescription] when the year is before Christ. *)
Definition timeDescription_BC (era : TimeEra) (absYear : Z) : string :=
  TimeEra_value era ++
  JS.template [" (Specifically ";
    JS.Z_toString absYear;
    " B.C.)"].

Definition historicInstruction_BC `{Host} (lat lng : Q) (absYear : Z)
  : string :=
  JS.template
    ["
            CRITICAL HISTORICAL ACCURACY (B.C. ERA):
            The year is ";
     JS.Z_toString absYear;
     " B.C. (Before Christ/Common Era).
            - MODERN CITIES DO NOT EXIST. Do NOT show modern buildings, roads, or ruins.
            - Show the NATURAL LANDSCAPE (pristine forests, rivers, deserts, terrain) exactly as it would have looked at these coordinates (";
     Number_toString lat;
     ", ";
     Number_toString lng;
     ") in ";
     JS.Z_toString absYear;
     " B.C.
            - If early human settlements (Neolithic, Bronze Age, Indigenous tribes) were historically present in this specific region at that time, depict them accurately (huts, primitive tools, campfires).
            - Clothing MUST be primitive and accurate to the region and era (e.g., animal skins, simple woven tunics).
          "].

(** [timeDescription] for any other year. *)
Definition timeDescription_AD (era : TimeEra) (year : string) : string :=
  TimeEra_value era ++
  JS.template [" (Specifically the year ";
    year;
    ")"].

Definition historicInstruction_AD (year : string) : string :=
  JS.template
    ["
            HISTORICAL ACCURACY: The year is ";
     year;
     ".
            - Ensure architecture, street signs, technology, and background details match this year.
            - If Future, use grounded sci-fi aesthetics suitable for ";
     year;
     ".
          "].

(** The pair [(timeDescription, historicInstruction)] after the year
    logic of [generateTravelPhoto]. *)
Definition yearLogic `{Host} (era : TimeEra) (lat lng : Q)
  (year : option string) : string * string :=
  match year with
  | Some (String c y) =>
      let year := String c y in
      let yearNum := JS.parseInt year in
      match yearNum with
      | Some n =>
          if n <? 0 then
            let absYear := Z.abs n in
            (timeDescription_BC era absYear,
             historicInstruction_BC lat lng absYear)
          else (timeDescription_AD era year, historicInstruction_AD year)
      | None => (timeDescription_AD era year, historicInstruction_AD year)
      end
  | _ => (TimeEra_value era, "")
  end.

Definition textPrompt `{Host} (lat lng : Q) (locationName : string)
  (era : TimeEra) (weatherCondition : string)
  (year customPrompt : option string) (style variation : string) : string :=
  let '(timeDescription, historicInstruction) :=
    yearLogic era lat lng year in
  JS.template
    ["
      Create a highly realistic and historically accurate travel photo.

      CONTEXT:
      - Location: ";
     locationName;
     " (Lat: ";
     Number_toString lat;
     ", Lng: ";
     Number_toString lng;
     ").
      - Era/Year: ";
     timeDescription;
     ".
      - Weather: ";
     weatherCondition;
     ".
      - Shot Variation: ";
     variation;
     " (Ensure this image has a distinct composition).

      USER INSTRUCTIONS:
      ";
     JS.dquote;
     JS.orElse customPrompt "No specific scene instructions provided.";
     JS.dquote;
     "

      REQUIREMENTS:
      1. ";
     historicInstruction;
     "
      
      2. SUBJECT: Insert the person from the reference image.
         - Maintain facial identity strictly.
         - CHANGE CLOTHING: The subject MUST wear clothing accurate to ";
     timeDescription;
     " and ";
     weatherCondition;
     ".
         - Pose: Natural travel pose.

      3. AESTHETICS:
         - Visual Style: ";
     style;
     ". 
         - Photorealistic, 8k resolution, cinematic lighting.
         - No text, borders, or frames.
    "].

(** *** The retry policy of [makeRequest] *)

(** [error.message?.includes('429') || error.status === 429]. *)
Definition isRateLimit (err : JS.Thrown) : bool :=
  match JS.message err with
  | Some m => JS.includes m "429"
  | None => false
  end
  || match JS.status err with
     | Some code => code =? 429
     | None => false
     end.

(** [error.message?.match(/retry in ([0-9.]+)s/)]: the capture group. *)
Definition retryHint (err : JS.Thrown) : option string :=
  match JS.message err with
  | Some m => JS.matchRetryIn m
  | None => None
  end.

(** The value of [delay] before it is compared with 70000; [None] is
    [NaN]. *)
Definition retryDelay (err : JS.Thrown) (retryCount : nat) : option Z :=
  let delay := 3000 * 2 ^ Z.of_nat retryCount in
  match retryHint err with
  | Some seconds =>
      match JS.parseFloat seconds with
      | Some s => Some (JS.Math_ceil s * 1000 + 2000)
      | None => None
      end
  | None => Some delay
  end.

(** [delay < 70000], which is false on [NaN]. *)
Definition delayAllowed (delay : option Z) : option Z :=
  match delay with
  | Some d => if d <? 70000 then Some d else None
  | None => None
  end.

Equations? makeRequest `{Backend} (apiKey : string) (request : Request)
  (retryCount : nat) (h : History)
  : (JS.Thrown + GenerateContentResponse) * History
  by wf (2 - retryCount)%nat lt :=
  makeRequest apiKey request retryCount h :=
    match send apiKey request h with
    | (inr response, h1) => (inr response, h1)
    | (inl err, h1) =>
        if isRateLimit err then
          match lt_dec retryCount 2 with
          | left _ =>
              match delayAllowed (retryDelay err retryCount) with
              | Some delay =>
                  makeRequest apiKey request (S retryCount)
                              (snd (wait delay h1))
              | None => (inl err, h1)
              end
          | right _ => (inl err, h1)
          end
        else (inl err, h1)
    end.
Proof. destruct retryCount as [|[|n]]; simpl; lia. Qed.

(** *** The image in the response *)

(** [response.candidates?.[0]?.content?.parts || []]. *)
Definition responseParts (response : GenerateContentResponse) : list Part :=
  match candidates response with
  | Some (candidate :: _) =>
      match content candidate with
      | Some c =>
          match parts c with
          | Some ps => ps
          | None => []
          end
      | None => []
      end
  | _ => []
  end.

(** The loop over the parts: the first part that carries inline data. *)
Fixpoint firstInlineData (ps : list Part) : option InlineData :=
  match ps with
  | part :: rest =>
      match inlineData part with
      | Some d => Some d
      | None => firstInlineData rest
      end
  | [] => None
  end.

(** The request [makeRequest] sends at every attempt. *)
Definition imageRequest (textPrompt : string)
  (userImageBase64 : option string) : Request :=
  ImageRequest "gemini-2.5-flash-image"
    [ {| text := Some textPrompt; inlineData := None |};
      {| text := None;
         inlineData := Some {| mimeType := "image/jpeg";
                               data := userImageBase64 |} |} ]
    "1:1".

Definition generateTravelPhoto `{Backend} `{Host}
  (apiKey : string) (lat lng : Q) (locationName : string) (era : TimeEra)
  (userImageBase64 : option string) (weatherCondition : string)
  (year customPrompt style variation : option string) : Async string :=
  let style := JS.defaultTo style "Realistic" in
  let variation := JS.defaultTo variation "Standard Shot" in
  match apiKey with
  | EmptyString => throw (JS.Error "API Key is required")
  | String _ _ =>
      let prompt :=
        textPrompt lat lng locationName era weatherCondition
                   year customPrompt style variation in
      let* response :=
        makeRequest apiKey (imageRequest prompt userImageBase64) 0 in
      match firstInlineData (responseParts response) with
      | Some d => resolve ("data:image/png;base64," ++ JS.interpolate (data d))
      | None => throw (JS.Error "No image generated")
      end
  end.


(* ===================================================================== *)
(** ** [App.tsx] *)
(* ===================================================================== *)

(** What [clearApiKey] touches outside the component: the stored key,
    whether [window.aistudio] exists, and how often its key selector was
    opened. *)
Record Browser := {
  gemini_api_key : option string;
  aistudio : bool;
  openSelectKey_calls : nat
}.

(** The state of the [App] component. *)
Record AppState := {
  apiKey : string;
  apiKeyReady : bool;
  selectedLocation : option Coordinates;
  locationInfo : option LocationContext;
  status : AppStatus;
  generatedImages : list string;
  errorMessage : option string;
  browser : Browser
}.

(** A handler of the component: it updates the component state and
    extends the history. *)
Definition Handler (A : Type) : Type := Eff (AppState * History) A.

(** An asynchronous call made by a handler. *)
Definition call {A} (m : Async A) : Handler A :=
  fun '(st, h) => let '(r, h') := m h in (r, (st, h')).

Definition update (f : AppState -> AppState) : Handler unit :=
  fun '(st, h) => (inr tt, (f st, h)).

Definition setApiKey (v : string) : Handler unit :=
  update (fun st =>
    {| apiKey := v; apiKeyReady := apiKeyReady st;
       selectedLocation := selectedLocation st;
       locationInfo := locationInfo st; status := status st;
       generatedImages := generatedImages st;
       errorMessage := errorMessage st; browser := browser st |}).

Definition setApiKeyReady (v : bool) : Handler unit :=
  update (fun st =>
    {| apiKey := apiKey st; apiKeyReady := v;
       selectedLocation := selectedLocation st;
       locationInfo := locationInfo st; status := status st;
       generatedImages := generatedImages st;
       errorMessage := errorMessage st; browser := browser st |}).

Definition setSelectedLocation (v : option Coordinates) : Handler unit :=
  update (fun st =>
    {| apiKey := apiKey st; apiKeyReady := apiKeyReady st;
       selectedLocation := v;
       locationInfo := locationInfo st; status := status st;
       generatedImages := generatedImages st;
       errorMessage := errorMessage st; browser := browser st |}).

Definition setLocationInfo (v : option LocationContext) : Handler unit :=
  update (fun st =>
    {| apiKey := apiKey st; apiKeyReady := apiKeyReady st;
       selectedLocation := selectedLocation st;
       locationInfo := v; status := status st;
       generatedImages := generatedImages st;
       errorMessage := errorMessage st; browser := browser st |}).

Definition setStatus (v : AppStatus) : Handler unit :=
  update (fun st =>
    {| apiKey := apiKey st; apiKeyReady := apiKeyReady st;
       selectedLocation := selectedLocation st;
       locationInfo := locationInfo st; status := v;
       generatedImages := generatedImages st;
       errorMessage := errorMessage st; browser := browser st |}).

(** [setGeneratedImages] with an updater function. *)
Definition setGeneratedImages (f : list string -> list string)
  : Handler unit :=
  update (fun st =>
    {| apiKey := apiKey st; apiKeyReady := apiKeyReady st;
       selectedLocation := selectedLocation st;
       locationInfo := locationInfo st; status := status st;
       generatedImages := f (generatedImages st);
       errorMessage := errorMessage st; browser := browser st |}).

Definition setErrorMessage (v : option string) : Handler unit :=
  update (fun st =>
    {| apiKey := apiKey st; apiKeyReady := apiKeyReady st;
       selectedLocation := selectedLocation st;
       locationInfo := locationInfo st; status := status st;
       generatedImages := generatedImages st;
       errorMessage := v; browser := browser st |}).

Definition updateBrowser (f : Browser -> Browser) : Handler unit :=
  update (fun st =>
    {| apiKey := apiKey st; apiKeyReady := apiKeyReady st;
       selectedLocation := selectedLocation st;
       locationInfo := locationInfo st; status := status st;
       generatedImages := generatedImages st;
       errorMessage := errorMessage st; browser := f (browser st) |}).

Definition clearApiKey : Handler unit :=
  setApiKey "" ;;
  setApiKeyReady false ;;
  updateBrowser (fun b =>
    {| gemini_api_key := None;
       aistudio := aistudio b;
       openSelectKey_calls :=
         if aistudio b then S (openSelectKey_calls b)
         else openSelectKey_calls b |}).

(** [`${Math.ceil(parseFloat(retryTime))}`]. *)
Definition ceilSeconds (retryTime : string) : string :=
  match JS.parseFloat retryTime with
  | Some s => JS.Z_toString (JS.Math_ceil s)
  | None => "NaN"
  end.

(** [error.message || JSON.stringify(error)]. *)
Definition errorText `{Host} (err : JS.Thrown) : string :=
  JS.orElse (JS.message err) (JSON_stringify err).

(** The first test of [handleError]. *)
Definition isQuotaMessage (msg : string) : bool :=
  JS.includes msg "429" || JS.includes msg "Quota"
  || JS.includes msg "RESOURCE_EXHAUSTED".

(** The second test of [handleError]. *)
Definition isInvalidKeyMessage (msg : string) : bool :=
  JS.includes msg "400" || JS.includes msg "expired"
  || JS.includes msg "API_KEY_INVALID" || JS.includes msg "not found".

Definition handleError `{Host} (err : JS.Thrown) (defaultMsg : string)
  : Handler unit :=
  setStatus error ;;
  let msg := errorText err in
  if isQuotaMessage msg then
    let retryMatch := JS.matchRetryIn msg in
    let displayMsg := "Quota/Rate limit exceeded." in
    let displayMsg :=
      match retryMatch with
      | Some retryTime =>
          displayMsg ++ " Please wait " ++ ceilSeconds retryTime
                     ++ " seconds before trying again."
      | None => displayMsg ++ " Please try again later or check your billing."
      end in
    setErrorMessage (Some displayMsg)
  else if isInvalidKeyMessage msg then
    setErrorMessage (Some "Invalid API Key. Please update your key.") ;;
    clearApiKey
  else
    setErrorMessage
      (Some (defaultMsg ++ ": " ++ JS.orElse (JS.message err) "Unknown error")).

Definition handleLocationSelect `{Backend} `{Host} (coords : Coordinates)
  : Handler unit :=
  fun '(st, h) =>
    if negb (apiKeyReady st) then (inr tt, (st, h))
    else
      (setSelectedLocation (Some coords) ;;
       setGeneratedImages (fun _ => []) ;;
       setStatus analyzing_location ;;
       setLocationInfo None ;;
       setErrorMessage None ;;
       try_catch
         (let* info :=
            call (analyzeLocation (lat coords) (lng coords) (apiKey st)) in
          setLocationInfo (Some info) ;;
          setStatus ready_to_generate)
         (fun err => handleError err "Failed to analyze location"))
      (st, h).

Definition handlePoiSelect `{Backend} `{Host} (poi : PointOfInterest)
  : Handler unit :=
  handleLocationSelect {| lat := poi_lat poi; lng := poi_lng poi |}.

(** The shot variations of [handleGenerate]. *)
Definition variations : list string :=
  [ "Wide Angle Shot (Establishing Context)";
    "Medium Shot (Character Interaction)" ].

Definition handleGenerate `{Backend} `{Host} (file : File) (era : TimeEra)
  (year customPrompt : option string) (style : option VisualStyle)
  : Handler unit :=
  fun '(st, h) =>
    let style :=
      match style with Some v => v | None => Realistic end in
    match selectedLocation st, locationInfo st with
    | Some selected, Some info =>
        (setStatus generating_image ;;
         setErrorMessage None ;;
         setGeneratedImages (fun _ => []) ;;
         try_catch
           (let* base64Image := call (blobToBase64 file) in
            for_of variations (fun variation =>
              let* imageUrl :=
                call (generateTravelPhoto
                        (apiKey st) (lat selected) (lng selected)
                        (name info) era base64Image
                        (condition (weather info))
                        year customPrompt
                        (Some (VisualStyle_value style))
                        (Some variation)) in
              setGeneratedImages (fun prev => (prev ++ [imageUrl])%list)) ;;
            setStatus complete)
           (fun err => handleError err "Image generation failed"))
        (st, h)
    | _, _ => (inr tt, (st, h))
    end.

Definition handleReset : Handler unit :=
  setSelectedLocation None ;;
  setLocationInfo None ;;
  setGeneratedImages (fun _ => []) ;;
  setStatus idle ;;
  setErrorMessage None.

(** The branch of [handleError] that calls [clearApiKey]: the text of the
    error fails the first test and passes the second. *)
Definition clearsCredential `{Host} (err : JS.Thrown) : bool :=
  negb (isQuotaMessage (errorText err))
  && isInvalidKeyMessage (errorText err).

(** Two states of the component that differ at most in the status and in
    the error message. *)
Definition sameButStatusAndMessage (before after : AppState) : Prop :=
  apiKey after = apiKey before
  /\ apiKeyReady after = apiKeyReady before
  /\ selectedLocation after = selectedLocation before
  /\ locationInfo after = locationInfo before
  /\ generatedImages after = generatedImages before
  /\ browser after = browser before.

(** The component during a generation started from [st]: the error
    message is cleared, the status and the images are as given, the other
    fields are those of [st]. *)
Definition generation (st : AppState) (s : AppStatus)
  (images : list string) : AppState :=
  {| apiKey := apiKey st; apiKeyReady := apiKeyReady st;
     selectedLocation := selectedLocation st;
     locationInfo := locationInfo st; status := s;
     generatedImages := images;
     errorMessage := None; browser := browser st |}.

(** One iteration's call in [handleGenerate]. *)
Definition shot `{Backend} `{Host} (st : AppState) (selected : Coordinates)
  (info : LocationContext) (era : TimeEra) (base64Image : option string)
  (year customPrompt : option string) (style : VisualStyle)
  (variation : string) : Async string :=
  generateTravelPhoto (apiKey st) (lat selected) (lng selected) (name info)
    era base64Image (condition (weather info)) year customPrompt
    (Some (VisualStyle_value style)) (Some variation).

(* ===================================================================== *)
(** ** [components/Sidebar.tsx] *)
(* ===================================================================== *)

(** The value of
    [locationInfo?.isVague && !overrideVague && generatedImages.length === 0]:
    [None] is [undefined], which [&&] passes on like [false]. *)
Definition isVagueState (locationInfo : option LocationContext)
  (overrideVague : bool) (generatedImages : list string) : option bool :=
  match
    match locationInfo with
    | Some info => isVague info
    | None => None
    end
  with
  | Some true =>
      if negb overrideVague
      then Some (length generatedImages =? 0)%nat
      else Some false
  | falsy => falsy
  end.

(** Truthiness of [undefined], [false] and [true]. *)
Definition holds (v : option bool) : bool :=
  match v with Some true => true | _ => false end.

(** [isVagueState && locationInfo]: the list of nearby places is rendered. *)
Definition showsPoiList (locationInfo : option LocationContext)
  (overrideVague : bool) (generatedImages : list string) : bool :=
  holds (isVagueState locationInfo overrideVague generatedImages)
  && match locationInfo with Some _ => true | None => false end.

(** [locationInfo && !isVagueState]: the location is displayed. *)
Definition showsLocation (locationInfo : option LocationContext)
  (overrideVague : bool) (generatedImages : list string) : bool :=
  match locationInfo with Some _ => true | None => false end
  && negb (holds (isVagueState locationInfo overrideVague generatedImages)).

(** [locationInfo && !isVagueState && generatedImages.length === 0]: the
    generation form is rendered. *)
Definition showsGenerationForm (locationInfo : option LocationContext)
  (overrideVague : bool) (generatedImages : list string) : bool :=
  showsLocation locationInfo overrideVague generatedImages
  && (length generatedImages =? 0)%nat.

Definition formatYearDisplay (valStr : string) : string :=
  match JS.parseInt valStr with
  | None => valStr
  | Some val =>
      if val <? 0 then JS.Z_toString (Z.abs val) ++ " B.C."
      else JS.Z_toString val ++ " A.D."
  end.

(* ===================================================================== *)
(** ** Sample hosts, services and states *)
(* ===================================================================== *)

(** A host that prints the integer part of a coordinate and whose JSON
    parser accepts nothing. *)
Definition plainHost : Host :=
  {| Number_toString := fun q => JS.Z_toString (Qfloor q);
     JSON_parse := fun _ => inl (JS.Error "Unexpected token");
     JSON_stringify := fun _ => "{}" |}.

(** A service on which every request fails with the given value. *)
Definition failingBackend (err : JS.Thrown) : Backend :=
  {| generateContent := fun _ _ _ => inl err |}.

(** A service on which every request returns the given response. *)
Definition constantBackend (response : GenerateContentResponse) : Backend :=
  {| generateContent := fun _ _ _ => inr response |}.

(** A response that carries one image. *)
Definition imageResponse (base64 : string) : GenerateContentResponse :=
  {| response_text := None;
     candidates :=
       Some [ {| content :=
                   Some {| parts :=
                     Some [ {| text := None;
                               inlineData :=
                                 Some {| mimeType := "image/png";
                                         data := Some base64 |} |} ] |} |} ] |}.

(** A service that returns the given response to the first request and
    a response without image to every later one. *)
Definition onceBackend (response : GenerateContentResponse) : Backend :=
  {| generateContent := fun _ h _ =>
       match h with
       | [] => inr response
       | _ :: _ => inr {| response_text := Some "I cannot draw this.";
                          candidates := None |}
       end |}.

(** A response that carries only text. *)
Definition textResponse (t : string) : GenerateContentResponse :=
  {| response_text := Some t; candidates := None |}.

Definition eiffel : Coordinates := {| lat := 488584 # 10000; lng := 22945 # 10000 |}.

Definition eiffelInfo : LocationContext :=
  {| name := "Eiffel Tower";
     description := "Built for the 1889 World Fair.";
     weather := {| temp := "18 C"; condition := "Cloudy" |};
     clothingRecommendation := "Light jacket";
     isVague := Some false;
     nearbyPOIs := None |}.

(** The component once the Eiffel Tower has been resolved. *)
Definition readyState : AppState :=
  {| apiKey := "secret";
     apiKeyReady := true;
     selectedLocation := Some eiffel;
     locationInfo := Some eiffelInfo;
     status := ready_to_generate;
     generatedImages := [];
     errorMessage := None;
     browser := {| gemini_api_key := Some "secret";
                   aistudio := false;
                   openSelectKey_calls := 0 |} |}.

Definition selfie : File :=
  {| readAsDataURL := inr "data:image/jpeg;base64,QUJD" |}.

(* ===================================================================== *)
(** ** Histories *)
(* ===================================================================== *)

(** The requests of a history, in the order they were sent. *)
Fixpoint requestsOf (h : History) : list Request :=
  match h with
  | Sent _ r :: h' => r :: requestsOf h'
  | Waited _ :: h' => requestsOf h'
  | [] => []
  end.

(** The waits of a history, in order. *)
Fixpoint waitsOf (h : History) : list Z :=
  match h with
  | Sent _ _ :: h' => waitsOf h'
  | Waited ms :: h' => ms :: waitsOf h'
  | [] => []
  end.

(** The text of the first part of an image request. *)
Definition promptOf (r : Request) : option string :=
  match r with
  | ImageRequest _ (p :: _) _ => text p
  | _ => None
  end.

(** The prompts of the image requests of a history. *)
Definition promptsOf (h : History) : list (option string) :=
  map promptOf (requestsOf h).

(** What a history [h'] adds to the history [h] it extends. *)
Definition since (h h' : History) : History := skipn (length h) h'.

(* ===================================================================== *)
(** ** The credential life cycle of [App.tsx] *)
(* ===================================================================== *)

(** [s.trimEnd()] and [s.trim()], on the white space of [isWhiteSpace]. *)
Fixpoint trimEnd (s : string) : string :=
  match s with
  | String c s' =>
      match trimEnd s' with
      | EmptyString =>
          if JS.isWhiteSpace c then EmptyString else String c EmptyString
      | String d r => String c (String d r)
      end
  | EmptyString => EmptyString
  end.

Definition trim (s : string) : string := trimEnd (JS.trimStart s).

(** [localStorage.setItem('gemini_api_key', v)]. *)
Definition storeKey (v : string) : Handler unit :=
  updateBrowser (fun b =>
    {| gemini_api_key := Some v;
       aistudio := aistudio b;
       openSelectKey_calls := openSelectKey_calls b |}).

(** [handleManualKeySubmit]; [e.preventDefault()] touches only the form
    event. *)
Definition handleManualKeySubmit (keyInput : string) : Handler unit :=
  if (0 <? String.length (trim keyInput))%nat then
    setApiKey (trim keyInput) ;;
    storeKey (trim keyInput) ;;
    setApiKeyReady true
  else resolve tt.

(** [initApiKey], given [process.env.API_KEY] and what
    [window.aistudio.hasSelectedApiKey()] returns or throws (asked only
    when [window.aistudio] exists). *)
Definition initApiKey (API_KEY : option string)
  (hasSelectedApiKey : JS.Thrown + bool) : Handler unit :=
  fun '(st, h) =>
    let fromEnvironment (otherwise : Handler unit) : Handler unit :=
      match API_KEY with
      | Some (String c k) => setApiKey (String c k) ;; setApiKeyReady true
      | _ => otherwise
      end in
    let fromStorage : Handler unit :=
      match gemini_api_key (browser st) with
      | Some (String c k) => setApiKey (String c k) ;; setApiKeyReady true
      | _ => resolve tt
      end in
    let afterStudio : Handler unit := fromEnvironment fromStorage in
    (if aistudio (browser st) then
       match hasSelectedApiKey with
       | inr true => fromEnvironment afterStudio
       | inr false => afterStudio
       | inl _ => afterStudio
       end
     else afterStudio) (st, h).

(** What the handlers keep: a component that is ready has a key. *)
Definition credentialOk (st : AppState) : Prop :=
  apiKeyReady st = true -> apiKey st <> "".

(* ===================================================================== *)
(** ** What [App] and [Sidebar] render *)
(* ===================================================================== *)

(** The parts of the page whose presence depends on the state. *)
Inductive Element :=
| KeyScreen
| StartPrompt
| ErrorBanner
| AnalyzingSpinner
| PoiList
| LocationCard
| GenerationForm
| ResultsPanel
| ProcessingTile
| RegenerateButton.

Definition Element_eqb (a b : Element) : bool :=
  match a, b with
  | KeyScreen, KeyScreen | StartPrompt, StartPrompt
  | ErrorBanner, ErrorBanner | AnalyzingSpinner, AnalyzingSpinner
  | PoiList, PoiList | LocationCard, LocationCard
  | GenerationForm, GenerationForm | ResultsPanel, ResultsPanel
  | ProcessingTile, ProcessingTile
  | RegenerateButton, RegenerateButton => true
  | _, _ => false
  end.

(** [e] is rendered. *)
Definition shows (page : list Element) (e : Element) : bool :=
  existsb (Element_eqb e) page.

(** [a === b] on two statuses. *)
Definition AppStatus_eqb (a b : AppStatus) : bool :=
  match a, b with
  | idle, idle | analyzing_location, analyzing_location
  | ready_to_generate, ready_to_generate
  | generating_image, generating_image
  | complete, complete | error, error => true
  | _, _ => false
  end.

(** [{cond && (<element/>)}]. *)
Definition when (cond : bool) (e : Element) : list Element :=
  if cond then [e] else [].

(** The conditional parts of the [Sidebar] component, in page order. *)
Definition Sidebar (location : option Coordinates)
  (locationInfo : option LocationContext) (status : AppStatus)
  (generatedImages : list string) (errorMessage : option string)
  (overrideVague : bool) : list Element :=
  match location with
  | None => [StartPrompt]
  | Some _ =>
      (when (AppStatus_eqb status error && JS.truthy errorMessage)
            ErrorBanner
       ++ when (AppStatus_eqb status analyzing_location) AnalyzingSpinner
       ++ when (showsPoiList locationInfo overrideVague generatedImages)
               PoiList
       ++ when (showsLocation locationInfo overrideVague generatedImages)
               LocationCard
       ++ when (showsGenerationForm locationInfo overrideVague
                                    generatedImages)
               GenerationForm
       ++ (if AppStatus_eqb status generating_image
              || (0 <? length generatedImages)%nat
           then
             ResultsPanel
               :: when (AppStatus_eqb status generating_image
                        && (length generatedImages <? 2)%nat)
                       ProcessingTile
               ++ when (AppStatus_eqb status complete) RegenerateButton
           else []))%list
  end.

(** What the [App] component renders: the key screen until a key is
    ready, the sidebar afterwards. *)
Definition App (st : AppState) (overrideVague : bool) : list Element :=
  if negb (apiKeyReady st) then [KeyScreen]
  else Sidebar (selectedLocation st) (locationInfo st) (status st)
               (generatedImages st) (errorMessage st) overrideVague.

(* ===================================================================== *)
(** ** Measures used in the statements *)
(* ===================================================================== *)

(** The time spent waiting in a history, in milliseconds. *)
Definition totalWait (h : History) : Z := fold_right Z.add 0 (waitsOf h).

(** The number a run of decimal digits denotes, read from the left. *)
Fixpoint digitsValue (d : Decimal.uint) (acc : Z) : Z :=
  match d with
  | Decimal.Nil => acc
  | Decimal.D0 d' => digitsValue d' (acc * 10 + 0)
  | Decimal.D1 d' => digitsValue d' (acc * 10 + 1)
  | Decimal.D2 d' => digitsValue d' (acc * 10 + 2)
  | Decimal.D3 d' => digitsValue d' (acc * 10 + 3)
  | Decimal.D4 d' => digitsValue d' (acc * 10 + 4)
  | Decimal.D5 d' => digitsValue d' (acc * 10 + 5)
  | Decimal.D6 d' => digitsValue d' (acc * 10 + 6)
  | Decimal.D7 d' => digitsValue d' (acc * 10 + 7)
  | Decimal.D8 d' => digitsValue d' (acc * 10 + 8)
  | Decimal.D9 d' => digitsValue d' (acc * 10 + 9)
  end.


(** Two states with the same credential: key, readiness and browser. *)
Definition sameCredential (before after : AppState) : Prop :=
  apiKey after = apiKey before
  /\ apiKeyReady after = apiKeyReady before
  /\ browser after = browser before.

(** Two states with the same session: location, description, status,
    images and error message. *)
Definition sameSession (before after : AppState) : Prop :=
  selectedLocation after = selectedLocation before
  /\ locationInfo after = locationInfo before
  /\ status after = status before
  /\ generatedImages after = generatedImages before
  /\ errorMessage after = errorMessage before.

(** The credential is as before, or it has been cleared. *)
Definition keptOrCleared (before after : AppState) : Prop :=
  (apiKey after = apiKey before /\ apiKeyReady after = apiKeyReady before)
  \/ (apiKey after = "" /\ apiKeyReady after = false).

(** A host whose JSON parser reads every text as the given record. *)
Definition acceptingHost (info : LocationContext) : Host :=
  {| Number_toString := fun q => JS.Z_toString (Qfloor q);
     JSON_parse := fun _ => inr info;
     JSON_stringify := fun _ => "{}" |}.

(** The parts without inline data. *)
Definition noInlineData (ps : list Part) : Prop :=
  Forall (fun p => inlineData p = None) ps.

(** A string without the given character. *)
Definition lacks (s : string) (c : string) : Prop :=
  JS.includes s c = false.

(* ===================================================================== *)
(** ** Facts about strings *)
(* ===================================================================== *)

Section StringFacts.

Lemma append_empty_r (s : string) : s ++ "" = s.
Proof. induction s as [|c s IH]; simpl; [reflexivity | now rewrite IH]. Qed.

Lemma append_assoc (a b c : string) : (a ++ b) ++ c = a ++ b ++ c.
Proof. induction a as [|x a IH]; simpl; [reflexivity | now rewrite IH]. Qed.

Lemma template_cons (c : string) (cs : list string) :
  JS.template (c :: cs) = c ++ JS.template cs.
Proof.
  unfold JS.template. destruct cs as [|d cs]; simpl.
  - now rewrite append_empty_r.
  - reflexivity.
Qed.

Lemma stripPrefix_app (p s : string) : JS.stripPrefix p (p ++ s) = Some s.
Proof.
  induction p as [|c p IH]; simpl; [reflexivity |].
  now rewrite Ascii.eqb_refl.
Qed.

Lemma stripPrefix_sound (p s r : string) :
  JS.stripPrefix p s = Some r -> s = p ++ r.
Proof.
  revert s. induction p as [|c p IH]; intros s; simpl.
  - now intros [= ->].
  - destruct s as [|d s]; [discriminate |].
    destruct (Ascii.eqb c d) eqn:E; [| discriminate].
    apply Ascii.eqb_eq in E. subst d. intros Hs.
    now rewrite (IH _ Hs).
Qed.

Lemma startsWith_app (p s : string) : JS.startsWith (p ++ s) p = true.
Proof. unfold JS.startsWith. now rewrite stripPrefix_app. Qed.

Lemma startsWith_iff (s p : string) :
  JS.startsWith s p = true <-> exists r, s = p ++ r.
Proof.
  unfold JS.startsWith. split.
  - destruct (JS.stripPrefix p s) as [r|] eqn:E; [| discriminate].
    intros _. exists r. now apply stripPrefix_sound.
  - intros [r ->]. now rewrite stripPrefix_app.
Qed.

Lemma includes_here (s sub : string) :
  JS.startsWith s sub = true -> JS.includes s sub = true.
Proof. intros E. destruct s; simpl; now rewrite E. Qed.

Lemma includes_app_r (pre s sub : string) :
  JS.includes s sub = true -> JS.includes (pre ++ s) sub = true.
Proof.
  intros E. induction pre as [|c pre IH]; simpl; [exact E |].
  rewrite IH. now destruct (JS.startsWith _ _).
Qed.

Lemma includes_mid (pre sub post : string) :
  JS.includes (pre ++ sub ++ post) sub = true.
Proof. apply includes_app_r, includes_here, startsWith_app. Qed.

(** [includes] is the substring relation. *)
Lemma includes_iff (s sub : string) :
  JS.includes s sub = true <-> exists pre post, s = pre ++ sub ++ post.
Proof.
  split.
  - induction s as [|c s IH]; simpl.
    + destruct (JS.startsWith "" sub) eqn:E; [| discriminate].
      intros _. apply startsWith_iff in E. destruct E as [r E].
      exists "", r. exact E.
    + destruct (JS.startsWith (String c s) sub) eqn:E.
      * intros _. apply startsWith_iff in E. destruct E as [r E].
        exists "", r. exact E.
      * intros Hs. destruct (IH Hs) as (pre & post & ->).
        now exists (String c pre), post.
  - intros (pre & post & ->). apply includes_mid.
Qed.

Lemma includes_app_l (s post sub : string) :
  JS.includes s sub = true -> JS.includes (s ++ post) sub = true.
Proof.
  intros E. apply includes_iff in E. destruct E as (a & b & ->).
  rewrite !append_assoc. apply includes_mid.
Qed.

Lemma includes_trans (s t u : string) :
  JS.includes s t = true -> JS.includes t u = true ->
  JS.includes s u = true.
Proof.
  intros E1 E2. apply includes_iff in E1. destruct E1 as (a & b & ->).
  now apply includes_app_r, includes_app_l.
Qed.

Lemma includes_refl (s : string) : JS.includes s s = true.
Proof.
  apply includes_iff. exists "", "". simpl. now rewrite append_empty_r.
Qed.

(** A template contains whatever one of its chunks contains. *)
Lemma includes_template (chunks : list string) (chunk sub : string) :
  In chunk chunks -> JS.includes chunk sub = true ->
  JS.includes (JS.template chunks) sub = true.
Proof.
  induction chunks as [|c cs IH]; intros Hin E; [destruct Hin |].
  rewrite template_cons. destruct Hin as [-> | Hin].
  - now apply includes_app_l.
  - now apply includes_app_r, IH.
Qed.

(** A template contains the text that ends one chunk, makes up the next
    and starts the one after. *)
Lemma includes_template_across (before a x b after k l : string)
  (cs ds : list string) :
  a = before ++ k -> b = l ++ after ->
  JS.includes (JS.template (cs ++ a :: x :: b :: ds)) (k ++ x ++ l) = true.
Proof.
  intros -> ->. induction cs as [|c cs IH]; simpl app.
  - rewrite !template_cons, !append_assoc.
    replace (before ++ k ++ x ++ l ++ after ++ JS.template ds)
      with (before ++ (k ++ x ++ l) ++ after ++ JS.template ds)
      by now rewrite !append_assoc.
    apply includes_mid.
  - rewrite template_cons. now apply includes_app_r.
Qed.

End StringFacts.

(* ===================================================================== *)
(** ** The prompt composer *)
(* ===================================================================== *)

Section PromptFacts.

Context `{Host}.

Lemma includes_template_pair (before a x k : string) (ds : list string) :
  a = before ++ k ->
  JS.includes (JS.template (a :: x :: ds)) (k ++ x) = true.
Proof.
  intros ->. rewrite !template_cons, !append_assoc.
  replace (before ++ k ++ x ++ JS.template ds)
    with (before ++ (k ++ x) ++ JS.template ds)
    by now rewrite !append_assoc.
  apply includes_mid.
Qed.

(** Membership in a literal list of chunks. *)
Ltac chunk_here := cbn [In]; repeat first [left; reflexivity | right].

(** The first chunk of a template that contains a literal. *)
Ltac find_chunk :=
  rewrite template_cons;
  first [ apply includes_app_l; reflexivity
        | apply includes_app_r; find_chunk ].

(** The year logic on a year that [parseInt] reads. *)
Lemma yearLogic_parsed era lat lng year z :
  JS.parseInt year = Some z ->
  yearLogic era lat lng (Some year) =
  if z <? 0
  then (timeDescription_BC era (Z.abs z),
        historicInstruction_BC lat lng (Z.abs z))
  else (timeDescription_AD era year, historicInstruction_AD year).
Proof.
  intros Hz. destruct year as [|c y]; [discriminate |].
  unfold yearLogic. cbv zeta. now rewrite Hz.
Qed.

(** The prompt contains the time description and the historic
    instruction, whatever they are. *)
Lemma textPrompt_includes lat lng locationName era weatherCondition
  year customPrompt style variation sub :
  JS.includes (fst (yearLogic era lat lng year)) sub = true \/
  JS.includes (snd (yearLogic era lat lng year)) sub = true ->
  JS.includes
    (textPrompt lat lng locationName era weatherCondition year
                customPrompt style variation) sub = true.
Proof.
  unfold textPrompt.
  destruct (yearLogic era lat lng year) as [td hi]. cbn [fst snd].
  intros [E | E];
    (eapply includes_template; [| exact E]); chunk_here.
Qed.

Lemma timeDescription_BC_includes era n :
  JS.includes (timeDescription_BC era n) (JS.Z_toString n ++ " B.C.") = true.
Proof.
  unfold timeDescription_BC. apply includes_app_r.
  apply (includes_template_across " (Specifically " _ _ _ ")" "" " B.C."
           [] []).
  - now rewrite append_empty_r.
  - reflexivity.
Qed.

Lemma timeDescription_AD_includes era year :
  JS.includes (timeDescription_AD era year) ("the year " ++ year) = true.
Proof.
  unfold timeDescription_AD. apply includes_app_r.
  now apply (includes_template_pair " (Specifically ").
Qed.

Lemma historicInstruction_BC_includes lat lng n clause :
  In clause
     [ "CRITICAL HISTORICAL ACCURACY (B.C. ERA):";
       "MODERN CITIES DO NOT EXIST. Do NOT show modern buildings, roads, or ruins.";
       "Show the NATURAL LANDSCAPE (pristine forests, rivers, deserts, terrain) exactly as it would have looked at these coordinates";
       "Clothing MUST be primitive and accurate to the region and era (e.g., animal skins, simple woven tunics)." ] ->
  JS.includes (historicInstruction_BC lat lng n) clause = true.
Proof.
  intros Hin. unfold historicInstruction_BC.
  cbn [In] in Hin.
  destruct Hin as [<- | [<- | [<- | [<- | []]]]]; find_chunk.
Qed.

Lemma historicInstruction_AD_includes year :
  JS.includes (historicInstruction_AD year)
              ("HISTORICAL ACCURACY: The year is " ++ year) = true
  /\ JS.includes (historicInstruction_AD year)
       "Ensure architecture, street signs, technology, and background details match this year."
     = true
  /\ JS.includes (historicInstruction_AD year)
       ("If Future, use grounded sci-fi aesthetics suitable for " ++ year)
     = true.
Proof.
  unfold historicInstruction_AD. repeat split.
  - now apply (includes_template_pair "
            ").
  - find_chunk.
  - rewrite template_cons, template_cons. do 2 apply includes_app_r.
    now apply (includes_template_pair ".
            - Ensure architecture, street signs, technology, and background details match this year.
            - ").
Qed.

End PromptFacts.

(** C1.  When [parseInt] reads the year string as an integer [z] (within
    the range where numbers are exact), the composed prompt depends on the
    sign of [z].  If [z] is negative, the prompt contains the descriptor
    made of the decimal digits of [|z|] followed by [" B.C."] and the whole
    B.C. instruction, in particular its clauses on modern structures, on
    the natural landscape and on primitive clothing.  Otherwise it
    contains ["the year "] followed by the year string as given, and the
    whole instruction for other years, in particular its clauses on
    architecture and on the future. *)
Theorem prompt_year_descriptor `{Host} :
  forall lat lng locationName era weatherCondition customPrompt
         style variation year z,
  JS.parseInt year = Some z ->
  - JS.MAX_SAFE_INTEGER <= z ->
  let prompt :=
    textPrompt lat lng locationName era weatherCondition (Some year)
               customPrompt style variation in
  if z <? 0 then
    JS.includes prompt (JS.Z_toString (Z.abs z) ++ " B.C.") = true
    /\ JS.includes prompt (historicInstruction_BC lat lng (Z.abs z)) = true
    /\ JS.includes prompt
         "MODERN CITIES DO NOT EXIST. Do NOT show modern buildings, roads, or ruins."
       = true
    /\ JS.includes prompt
         "Show the NATURAL LANDSCAPE (pristine forests, rivers, deserts, terrain) exactly as it would have looked at these coordinates"
       = true
    /\ JS.includes prompt
         "Clothing MUST be primitive and accurate to the region and era (e.g., animal skins, simple woven tunics)."
       = true
  else
    JS.includes prompt ("the year " ++ year) = true
    /\ JS.includes prompt (historicInstruction_AD year) = true
    /\ JS.includes prompt ("HISTORICAL ACCURACY: The year is " ++ year) = true
    /\ JS.includes prompt
         "Ensure architecture, street signs, technology, and background details match this year."
       = true
    /\ JS.includes prompt
         ("If Future, use grounded sci-fi aesthetics suitable for " ++ year)
       = true.
Proof.
  intros lat lng locationName era weatherCondition customPrompt style
         variation year z Hz _ prompt.
  pose proof (yearLogic_parsed era lat lng year z Hz) as Hy.
  destruct (z <? 0) eqn:Hsign; subst prompt.
  - repeat split; apply textPrompt_includes; rewrite Hy; cbn [fst snd].
    + left. apply timeDescription_BC_includes.
    + right. apply includes_refl.
    + right. apply historicInstruction_BC_includes. cbn [In]. tauto.
    + right. apply historicInstruction_BC_includes. cbn [In]. tauto.
    + right. apply historicInstruction_BC_includes. cbn [In]. tauto.
  - destruct (historicInstruction_AD_includes year) as (E1 & E2 & E3).
    repeat split; apply textPrompt_includes; rewrite Hy; cbn [fst snd].
    + left. apply timeDescription_AD_includes.
    + right. apply includes_refl.
    + right. exact E1.
    + right. exact E2.
    + right. exact E3.
Qed.

(** The years [-500] and [1950] of a visit to the Eiffel Tower. *)
Lemma prompt_year_descriptor_witness :
  (let prompt :=
     @textPrompt plainHost (lat eiffel) (lng eiffel) "Eiffel Tower" PAST
       "Cloudy" (Some "-500") None "Cinematic" "Standard Shot" in
   JS.includes prompt "500 B.C." = true
   /\ JS.includes prompt
        "MODERN CITIES DO NOT EXIST. Do NOT show modern buildings, roads, or ruins."
      = true)
  /\ (let prompt :=
        @textPrompt plainHost (lat eiffel) (lng eiffel) "Eiffel Tower" PAST
          "Cloudy" (Some "1950") None "Cinematic" "Standard Shot" in
      JS.includes prompt "the year 1950" = true
      /\ JS.includes prompt "HISTORICAL ACCURACY: The year is 1950" = true).
Proof.
  split.
  - pose proof (@prompt_year_descriptor plainHost (lat eiffel) (lng eiffel)
                  "Eiffel Tower" PAST "Cloudy" None "Cinematic"
                  "Standard Shot" "-500" (-500) eq_refl) as P.
    cbv zeta in P. change (-500 <? 0) with true in P. cbv iota in P.
    assert (Hr : - JS.MAX_SAFE_INTEGER <= -500) by (vm_compute; discriminate).
    destruct (P Hr) as (P1 & _ & P3 & _). split; [exact P1 | exact P3].
  - pose proof (@prompt_year_descriptor plainHost (lat eiffel) (lng eiffel)
                  "Eiffel Tower" PAST "Cloudy" None "Cinematic"
                  "Standard Shot" "1950" 1950 eq_refl) as P.
    cbv zeta in P. change (1950 <? 0) with false in P. cbv iota in P.
    assert (Hr : - JS.MAX_SAFE_INTEGER <= 1950) by (vm_compute; discriminate).
    destruct (P Hr) as (P1 & _ & P3 & _). split; [exact P1 | exact P3].
Defined.

(* ===================================================================== *)
(** ** The retry policy *)
(* ===================================================================== *)

Section RetryFacts.

Context `{Backend}.

Variables (key : string) (request : Request).

(** The four ways an attempt ends. *)

Lemma makeRequest_returns k h response :
  generateContent key h request = inr response ->
  makeRequest key request k h = (inr response, (h ++ [Sent key request])%list).
Proof.
  intros E. rewrite makeRequest_equation_1. unfold send. now rewrite E.
Qed.

Lemma makeRequest_not_rate_limit k h err :
  generateContent key h request = inl err ->
  isRateLimit err = false ->
  makeRequest key request k h = (inl err, (h ++ [Sent key request])%list).
Proof.
  intros E R. rewrite makeRequest_equation_1. unfold send.
  now rewrite E, R.
Qed.

Lemma makeRequest_exhausted k h err :
  generateContent key h request = inl err ->
  (2 <= k)%nat ->
  makeRequest key request k h = (inl err, (h ++ [Sent key request])%list).
Proof.
  intros E K. rewrite makeRequest_equation_1. unfold send. rewrite E.
  destruct (isRateLimit err); [| reflexivity].
  destruct (lt_dec k 2); [lia | reflexivity].
Qed.

Lemma makeRequest_gives_up k h err :
  generateContent key h request = inl err ->
  delayAllowed (retryDelay err k) = None ->
  makeRequest key request k h = (inl err, (h ++ [Sent key request])%list).
Proof.
  intros E D. rewrite makeRequest_equation_1. unfold send. rewrite E, D.
  destruct (isRateLimit err); [| reflexivity].
  now destruct (lt_dec k 2).
Qed.

Lemma makeRequest_retries k h err delay :
  generateContent key h request = inl err ->
  isRateLimit err = true ->
  (k < 2)%nat ->
  delayAllowed (retryDelay err k) = Some delay ->
  makeRequest key request k h =
  makeRequest key request (S k)
              (h ++ [Sent key request; Waited delay])%list.
Proof.
  intros E R K D. rewrite makeRequest_equation_1. unfold send.
  rewrite E, R, D. destruct (lt_dec k 2); [| lia].
  unfold wait. cbn [snd]. now rewrite <- app_assoc.
Qed.

(** An attempt either ends there or is followed by a wait and the next
    attempt, and the latter only after a rate-limit failure below the
    retry bound. *)
Lemma makeRequest_step k h :
  (exists result,
     makeRequest key request k h = (result, (h ++ [Sent key request])%list)
     /\ result = generateContent key h request)
  \/ (exists err delay,
        generateContent key h request = inl err
        /\ isRateLimit err = true
        /\ (k < 2)%nat
        /\ retryDelay err k = Some delay
        /\ delay < 70000
        /\ makeRequest key request k h =
           makeRequest key request (S k)
                       (h ++ [Sent key request; Waited delay])%list).
Proof.
  destruct (generateContent key h request) as [err | response] eqn:E.
  - destruct (isRateLimit err) eqn:R.
    + destruct (lt_dec k 2) as [K | K].
      * destruct (delayAllowed (retryDelay err k)) as [delay |] eqn:D.
        -- right. exists err, delay.
           pose proof (makeRequest_retries k h err delay E R K D) as M.
           unfold delayAllowed in D.
           destruct (retryDelay err k) as [d |]; [| discriminate].
           destruct (d <? 70000) eqn:L; [| discriminate].
           injection D as ->. apply Z.ltb_lt in L. now repeat split.
        -- left. eexists. split; [| reflexivity].
           now apply makeRequest_gives_up.
      * left. eexists. split; [| reflexivity].
        apply makeRequest_exhausted; [exact E | lia].
    + left. eexists. split; [| reflexivity].
      now apply makeRequest_not_rate_limit.
  - left. eexists. split; [| reflexivity].
    now apply makeRequest_returns.
Qed.

Lemma requestsOf_app h1 h2 :
  requestsOf (h1 ++ h2)%list = (requestsOf h1 ++ requestsOf h2)%list.
Proof.
  induction h1 as [| [k r | ms] h1 IH]; simpl; [reflexivity | | exact IH].
  now rewrite IH.
Qed.

Lemma waitsOf_app h1 h2 :
  waitsOf (h1 ++ h2)%list = (waitsOf h1 ++ waitsOf h2)%list.
Proof.
  induction h1 as [| [k r | ms] h1 IH]; simpl; [reflexivity | exact IH |].
  now rewrite IH.
Qed.

Lemma since_app h trace : since h (h ++ trace)%list = trace.
Proof.
  unfold since. induction h as [|e h IH]; simpl; [reflexivity | exact IH].
Qed.

(** What [makeRequest] adds to the history from attempt [k] on: between
    one request and as many as the retry bound leaves, all of them the
    same request, each but the last followed by a wait shorter than 70
    seconds. *)
Lemma makeRequest_trace k h :
  exists trace n,
    snd (makeRequest key request k h) = (h ++ trace)%list
    /\ requestsOf trace = repeat request (S n)
    /\ length (waitsOf trace) = n
    /\ (n <= 2 - k)%nat
    /\ Forall (fun ms => ms < 70000) (waitsOf trace).
Proof.
  remember (2 - k)%nat as budget eqn:B.
  revert k h B.
  induction budget as [| budget IH]; intros k h B.
  - destruct (makeRequest_step k h) as [(result & M & _) | (e & d & _ & _ & K & _)];
      [| lia].
    exists [Sent key request], 0%nat. rewrite M. cbn.
    repeat split; [lia | constructor].
  - destruct (makeRequest_step k h)
      as [(result & M & _) | (e & d & _ & _ & K & _ & L & M)].
    + exists [Sent key request], 0%nat. rewrite M. cbn.
      repeat split; [lia | constructor].
    + destruct (IH (S k) (h ++ [Sent key request; Waited d])%list)
        as (trace & n & T & Rq & W & N & F); [lia |].
      exists (Sent key request :: Waited d :: trace), (S n).
      rewrite M, T, <- app_assoc. cbn.
      repeat split; [now rewrite Rq | now rewrite W | lia |].
      now constructor.
Qed.

End RetryFacts.

Section RetryPattern.







End RetryPattern.

Lemma isRateLimit_iff (err : JS.Thrown) :
  isRateLimit err = true <->
  JS.status err = Some 429
  \/ exists m, JS.message err = Some m /\ JS.includes m "429" = true.
Proof.
  unfold isRateLimit. rewrite orb_true_iff. split.
  - intros [E | E].
    + destruct (JS.message err) as [m |]; [| discriminate].
      right. now exists m.
    + destruct (JS.status err) as [code |]; [| discriminate].
      left. apply Z.eqb_eq in E. now subst.
  - intros [E | (m & E & I)].
    + right. now rewrite E.
    + left. now rewrite E.
Qed.



(** C3.  From its first attempt on, the client sends the request between
    one and three times, every time the same request, and waits once
    between two attempts, so it retries at most twice.  An attempt whose
    failure is not a rate-limit error (neither status 429 nor a message
    that contains 429) ends the invocation at once with that failure; so
    does the third attempt, whatever its failure.  An attempt is followed
    by another one only if it failed with a rate-limit error. *)
Theorem retry_only_rate_limit `{Backend} :
  forall key request h,
  (exists trace n,
      snd (makeRequest key request 0 h) = (h ++ trace)%list
      /\ requestsOf trace = repeat request (S n)
      /\ length (waitsOf trace) = n
      /\ (n <= 2)%nat)
  /\ (forall k h0 err,
        generateContent key h0 request = inl err ->
        isRateLimit err = false ->
        makeRequest key request k h0 =
        (inl err, (h0 ++ [Sent key request])%list))
  /\ (forall h0 err,
        generateContent key h0 request = inl err ->
        makeRequest key request 2 h0 =
        (inl err, (h0 ++ [Sent key request])%list))
  /\ (forall k h0,
        makeRequest key request k h0 <>
        (generateContent key h0 request, (h0 ++ [Sent key request])%list) ->
        (k < 2)%nat
        /\ exists err,
             generateContent key h0 request = inl err
             /\ isRateLimit err = true
             /\ (JS.status err = Some 429
                 \/ exists m, JS.message err = Some m
                              /\ JS.includes m "429" = true)).
Proof.
  intros key request h. split; [| split; [| split]].
  - destruct (makeRequest_trace key request 0 h)
      as (trace & n & T & Rq & W & N & _).
    exists trace, n. repeat split; assumption.
  - intros k h0 err E R. now apply makeRequest_not_rate_limit.
  - intros h0 err E. apply makeRequest_exhausted; [exact E | lia].
  - intros k h0 Hne.
    destruct (makeRequest_step key request k h0)
      as [(result & M & ->) | (err & d & E & R & K & _)].
    + contradiction.
    + split; [exact K |]. exists err. repeat split; try assumption.
      now apply isRateLimit_iff.
Qed.

(** A service that always fails with status 429 is tried three times,
    after 3000 and then 6000 milliseconds; one that fails otherwise is
    tried once. *)
Lemma retry_only_rate_limit_witness :
  let busy := {| JS.message := Some "Too many requests";
                 JS.status := Some 429 |} in
  let broken := {| JS.message := Some "Internal error";
                   JS.status := Some 500 |} in
  let request := imageRequest "prompt" (Some "QUJD") in
  @makeRequest (failingBackend busy) "secret" request 0 [] =
    (inl busy, [Sent "secret" request; Waited 3000;
                Sent "secret" request; Waited 6000;
                Sent "secret" request])
  /\ @makeRequest (failingBackend broken) "secret" request 0 [] =
     (inl broken, [Sent "secret" request]).
Proof.
  intros busy broken request. split.
  - reflexivity.
  - destruct (@retry_only_rate_limit (failingBackend broken) "secret"
                request []) as (_ & P & _).
    apply (P 0%nat [] broken); reflexivity.
Defined.

(* ===================================================================== *)
(** ** The image client *)
(* ===================================================================== *)

Section ClientFacts.

Context `{Backend} `{Host}.

(** [generateTravelPhoto] sends what [makeRequest] sends, and nothing
    when the credential is empty. *)
Lemma generateTravelPhoto_history key lat lng locationName era image
  weatherCondition year customPrompt style variation h :
  snd (generateTravelPhoto key lat lng locationName era image
         weatherCondition year customPrompt style variation h) =
  match key with
  | EmptyString => h
  | String _ _ =>
      snd (makeRequest key
             (imageRequest
                (textPrompt lat lng locationName era weatherCondition year
                   customPrompt (JS.defaultTo style "Realistic")
                   (JS.defaultTo variation "Standard Shot"))
                image) 0 h)
  end.
Proof.
  unfold generateTravelPhoto. destruct key as [|c key]; [reflexivity |].
  unfold await.
  destruct (makeRequest _ _ 0 h) as [[err | response] h']; [reflexivity |].
  cbn [snd]. now destruct (firstInlineData (responseParts response)).
Qed.

Lemma map_repeat {A B} (f : A -> B) (x : A) (n : nat) :
  map f (repeat x n) = repeat (f x) n.
Proof. induction n as [|n IH]; simpl; [reflexivity | now rewrite IH]. Qed.

Lemma generateTravelPhoto_prompts key lat lng locationName era image
  weatherCondition year customPrompt style variation h :
  key <> "" ->
  exists n,
    (n <= 2)%nat
    /\ promptsOf
         (since h
            (snd (generateTravelPhoto key lat lng locationName era image
                    weatherCondition year customPrompt style variation h))) =
       repeat
         (Some (textPrompt lat lng locationName era weatherCondition year
                  customPrompt (JS.defaultTo style "Realistic")
                  (JS.defaultTo variation "Standard Shot")))
         (S n).
Proof.
  intros K. rewrite generateTravelPhoto_history.
  destruct key as [|c key]; [contradiction |].
  destruct (makeRequest_trace (String c key)
              (imageRequest
                 (textPrompt lat lng locationName era weatherCondition year
                    customPrompt (JS.defaultTo style "Realistic")
                    (JS.defaultTo variation "Standard Shot")) image) 0 h)
    as (trace & n & T & Rq & _ & N & _).
  exists n. split; [lia |].
  rewrite T, since_app. unfold promptsOf. rewrite Rq.
  now rewrite map_repeat.
Qed.

End ClientFacts.

(** C9.  Two invocations of the image client with the same location
    name, coordinates, era, year string, custom prompt, style, weather
    condition and variation label send the same prompt text, byte for
    byte, at each of their attempts (between one and three), whatever
    their credentials, reference photos, earlier histories and the
    behaviour of the service; that text is [textPrompt] of these
    arguments. *)
Theorem prompt_deterministic `{Host} :
  forall (service1 service2 : Backend) key1 key2 image1 image2 h1 h2
         lat lng locationName era weatherCondition year customPrompt
         style variation,
  key1 <> "" -> key2 <> "" ->
  exists prompt n1 n2,
    prompt =
      textPrompt lat lng locationName era weatherCondition year
        customPrompt (JS.defaultTo style "Realistic")
        (JS.defaultTo variation "Standard Shot")
    /\ (n1 <= 2)%nat /\ (n2 <= 2)%nat
    /\ promptsOf
         (since h1
            (snd (@generateTravelPhoto service1 _ key1 lat lng locationName
                    era image1 weatherCondition year customPrompt style
                    variation h1))) = repeat (Some prompt) (S n1)
    /\ promptsOf
         (since h2
            (snd (@generateTravelPhoto service2 _ key2 lat lng locationName
                    era image2 weatherCondition year customPrompt style
                    variation h2))) = repeat (Some prompt) (S n2).
Proof.
  intros service1 service2 key1 key2 image1 image2 h1 h2 lat lng
         locationName era weatherCondition year customPrompt style
         variation K1 K2.
  destruct (@generateTravelPhoto_prompts service1 _ key1 lat lng
              locationName era image1 weatherCondition year customPrompt
              style variation h1 K1) as (n1 & N1 & P1).
  destruct (@generateTravelPhoto_prompts service2 _ key2 lat lng
              locationName era image2 weatherCondition year customPrompt
              style variation h2 K2) as (n2 & N2 & P2).
  eexists _, n1, n2. split; [reflexivity |]. now repeat split.
Qed.

(** Two invocations for the Eiffel Tower in 1889: one answered with an
    image at once, the other refused three times. *)
Lemma prompt_deterministic_witness :
  exists prompt n1 n2,
    promptsOf
      (snd (@generateTravelPhoto (constantBackend (imageResponse "UE5H"))
              plainHost "secret" (lat eiffel) (lng eiffel) "Eiffel Tower"
              PAST (Some "QUJD") "Cloudy" (Some "1889") None
              (Some "Cinematic")
              (Some "Wide Angle Shot (Establishing Context)") []))
      = repeat (Some prompt) (S n1)
    /\ promptsOf
         (snd (@generateTravelPhoto
                 (failingBackend {| JS.message := Some "429";
                                    JS.status := None |})
                 plainHost "other" (lat eiffel) (lng eiffel) "Eiffel Tower"
                 PAST None "Cloudy" (Some "1889") None
                 (Some "Cinematic")
                 (Some "Wide Angle Shot (Establishing Context)") []))
         = repeat (Some prompt) (S n2).
Proof.
  destruct (@prompt_deterministic plainHost
              (constantBackend (imageResponse "UE5H"))
              (failingBackend {| JS.message := Some "429";
                                 JS.status := None |})
              "secret" "other" (Some "QUJD") None [] []
              (lat eiffel) (lng eiffel) "Eiffel Tower" PAST "Cloudy"
              (Some "1889") None (Some "Cinematic")
              (Some "Wide Angle Shot (Establishing Context)"))
    as (prompt & n1 & n2 & _ & _ & _ & P1 & P2); [discriminate .. |].
  exists prompt, n1, n2. split; [exact P1 | exact P2].
Defined.

(* ===================================================================== *)
(** ** The resolver *)
(* ===================================================================== *)

Section BraceFacts.

Lemma includes_char_nil (c : ascii) :
  JS.includes "" (String c "") = false.
Proof. reflexivity. Qed.

Lemma includes_char_cons (c a : ascii) (s : string) :
  JS.includes (String a s) (String c "") =
  Ascii.eqb c a || JS.includes s (String c "").
Proof.
  cbn [JS.includes]. unfold JS.startsWith at 1. cbn [JS.stripPrefix].
  now destruct (Ascii.eqb c a).
Qed.

Lemma toLastClose_none (s : string) :
  JS.toLastClose s = None <-> JS.includes s "}" = false.
Proof.
  induction s as [|a s IH].
  - split; reflexivity.
  - rewrite includes_char_cons. cbn [JS.toLastClose].
    rewrite (Ascii.eqb_sym "}" a).
    destruct (JS.toLastClose s) as [r|].
    + split; [discriminate |]. intros E.
      apply orb_false_iff in E. destruct E as [_ E].
      apply IH in E. discriminate.
    + destruct (Ascii.eqb a "}").
      * cbn [orb]. split; discriminate.
      * split; [| reflexivity]. intros _. now apply IH.
Qed.

(** The greedy star stops at the last closing brace. *)
Lemma toLastClose_app (p post : string) :
  JS.includes post "}" = false ->
  JS.toLastClose (p ++ "}" ++ post) = Some (p ++ "}").
Proof.
  intros E. apply toLastClose_none in E.
  induction p as [|a p IH].
  - cbn. now rewrite E.
  - cbn [String.append JS.toLastClose] in *. now rewrite IH.
Qed.

Lemma toLastClose_sound (s span : string) :
  JS.toLastClose s = Some span ->
  exists p post,
    span = p ++ "}" /\ s = span ++ post /\ JS.includes post "}" = false.
Proof.
  revert span. induction s as [|a s IH]; intros span; [discriminate |].
  cbn [JS.toLastClose].
  destruct (JS.toLastClose s) as [r|] eqn:E.
  - intros [= <-]. destruct (IH r eq_refl) as (p & post & -> & Hs & N).
    exists (String a p), post. cbn. now rewrite Hs at 1.
  - destruct (Ascii.eqb a "}") eqn:A; [| discriminate].
    apply Ascii.eqb_eq in A. subst a. intros [= <-].
    exists "", s. repeat split. now apply toLastClose_none.
Qed.

(** The match starts at the first opening brace. *)
Lemma fromFirstOpen_app (pre rest : string) :
  JS.includes pre "{" = false ->
  JS.fromFirstOpen (pre ++ "{" ++ rest) = Some ("{" ++ rest).
Proof.
  induction pre as [|a pre IH]; intros E; [reflexivity |].
  rewrite includes_char_cons in E. apply orb_false_iff in E.
  destruct E as [A E]. cbn [String.append JS.fromFirstOpen].
  rewrite (Ascii.eqb_sym a "{"), A. now apply IH.
Qed.

Lemma fromFirstOpen_sound (s r : string) :
  JS.fromFirstOpen s = Some r ->
  exists pre rest,
    r = "{" ++ rest /\ s = pre ++ r /\ JS.includes pre "{" = false.
Proof.
  induction s as [|a s IH]; [discriminate |].
  cbn [JS.fromFirstOpen]. destruct (Ascii.eqb a "{") eqn:A.
  - apply Ascii.eqb_eq in A. subst a. intros [= <-].
    now exists "", s.
  - intros E. destruct (IH E) as (pre & rest & -> & -> & N).
    exists (String a pre), rest. repeat split.
    rewrite includes_char_cons, (Ascii.eqb_sym "{" a), A. exact N.
Qed.

Lemma fromFirstOpen_none (s : string) :
  JS.fromFirstOpen s = None <-> JS.includes s "{" = false.
Proof.
  induction s as [|a s IH]; [split; reflexivity |].
  rewrite includes_char_cons, (Ascii.eqb_sym "{" a). cbn [JS.fromFirstOpen].
  destruct (Ascii.eqb a "{"); [split; discriminate | exact IH].
Qed.

(** The match of [/\{[\s\S]*\}/] is the span from the first opening
    brace of the text through its last closing brace. *)
Lemma matchBraces_iff (s span : string) :
  JS.matchBraces s = Some span <->
  exists pre mid post,
    s = pre ++ "{" ++ mid ++ "}" ++ post
    /\ span = "{" ++ mid ++ "}"
    /\ JS.includes pre "{" = false
    /\ JS.includes post "}" = false.
Proof.
  unfold JS.matchBraces. split.
  - destruct (JS.fromFirstOpen s) as [r|] eqn:F; [| discriminate].
    intros L.
    destruct (fromFirstOpen_sound s r F) as (pre & rest & -> & -> & Npre).
    destruct (toLastClose_sound _ _ L) as (p & post & -> & Hr & Npost).
    destruct p as [|a mid]; [discriminate Hr |].
    cbn [String.append] in Hr. injection Hr as <- Hr.
    exists pre, mid, post. repeat split; try assumption.
    rewrite Hr, !append_assoc. reflexivity.
  - intros (pre & mid & post & -> & -> & Npre & Npost).
    rewrite fromFirstOpen_app by exact Npre.
    change ("{" ++ mid ++ "}" ++ post) with (("{" ++ mid) ++ "}" ++ post).
    rewrite toLastClose_app by exact Npost. reflexivity.
Qed.

(** There is no match exactly when no opening brace of the text is
    followed by a closing brace. *)
Lemma matchBraces_none (s : string) :
  JS.matchBraces s = None <->
  forall a b c, s <> a ++ "{" ++ b ++ "}" ++ c.
Proof.
  unfold JS.matchBraces. split.
  - intros M a b c ->.
    assert (F : exists a', JS.fromFirstOpen (a ++ "{" ++ b ++ "}" ++ c)
                           = Some (a' ++ "{" ++ b ++ "}" ++ c)).
    { clear M. induction a as [|x a IH].
      - now exists "".
      - cbn [String.append JS.fromFirstOpen].
        destruct (Ascii.eqb x "{"); [| exact IH].
        now exists (String x a). }
    destruct F as (a' & F). rewrite F in M.
    apply toLastClose_none in M.
    replace (a' ++ "{" ++ b ++ "}" ++ c)
      with ((a' ++ "{" ++ b) ++ "}" ++ c) in M
      by now rewrite !append_assoc.
    now rewrite includes_mid in M.
  - intros N. destruct (JS.fromFirstOpen s) as [r|] eqn:F; [| reflexivity].
    destruct (JS.toLastClose r) as [span|] eqn:L; [| reflexivity].
    exfalso.
    destruct (fromFirstOpen_sound s r F) as (pre & rest & -> & -> & _).
    destruct (toLastClose_sound _ _ L) as (p & post & -> & Hr & _).
    destruct p as [|a mid]; [discriminate Hr |].
    cbn [String.append] in Hr. injection Hr as <- Hr.
    apply (N pre mid post). rewrite Hr, !append_assoc. reflexivity.
Qed.

End BraceFacts.

Section ResolverFacts.

Context `{Backend} `{Host}.

Variables (lat lng : Q) (key : string) (h : History).

Let request := LocationRequest "gemini-2.5-flash" lat lng.
Let h' := (h ++ [Sent key request])%list.

Lemma analyzeLocation_try_unfold :
  analyzeLocation_try lat lng key h =
  match generateContent key h request with
  | inl err => (inl err, h')
  | inr response =>
      match response_text response with
      | Some (String c t) =>
          match JS.matchBraces (String c t) with
          | Some json => (JSON_parse json, h')
          | None => (inl (JS.Error "Failed to parse location JSON"), h')
          end
      | _ => (inl (JS.Error "No response from AI"), h')
      end
  end.
Proof.
  unfold analyzeLocation_try, await, send. fold request. fold h'.
  destruct (generateContent key h request) as [err | response];
    [reflexivity |].
  destruct (response_text response) as [[|c t] |]; try reflexivity.
  destruct (JS.matchBraces (String c t)) as [json |]; [| reflexivity].
  now destruct (JSON_parse json).
Qed.

(** With a credential, the resolver returns what the [try] block
    returns, and the fallback record when the block throws. *)
Lemma analyzeLocation_unfold :
  key <> "" ->
  analyzeLocation lat lng key h =
  match analyzeLocation_try lat lng key h with
  | (inr info, h1) => (inr info, h1)
  | (inl _, h1) => (inr fallbackLocation, h1)
  end.
Proof.
  intros K. unfold analyzeLocation.
  destruct key as [|c k]; [contradiction |]. reflexivity.
Qed.

End ResolverFacts.

(** C5.  With a non-empty credential, the resolver returns the fallback
    record, and throws nothing, in each of these cases: the call to the
    service fails; the response has no text or an empty text; the text
    holds no brace-delimited span; [JSON.parse] rejects the span.  The
    fallback record is named ["Unknown Location"], its weather is ["--"]
    and ["Unknown"], it is not vague and it has no nearby places. *)
Theorem resolver_fallback `{Backend} `{Host} :
  forall lat lng key h,
  key <> "" ->
  let request := LocationRequest "gemini-2.5-flash" lat lng in
  let outcome := generateContent key h request in
  (exists err, outcome = inl err)
  \/ (exists response,
        outcome = inr response
        /\ JS.truthy (response_text response) = false)
  \/ (exists response text,
        outcome = inr response
        /\ response_text response = Some text
        /\ JS.matchBraces text = None)
  \/ (exists response text json syntaxError,
        outcome = inr response
        /\ response_text response = Some text
        /\ JS.matchBraces text = Some json
        /\ JSON_parse json = inl syntaxError) ->
  analyzeLocation lat lng key h =
    (inr fallbackLocation, (h ++ [Sent key request])%list)
  /\ name fallbackLocation = "Unknown Location"
  /\ weather fallbackLocation = {| temp := "--"; condition := "Unknown" |}
  /\ isVague fallbackLocation = Some false
  /\ nearbyPOIs fallbackLocation = None.
Proof.
  intros lat lng key h K request outcome Hcase.
  split; [| now repeat split].
  rewrite analyzeLocation_unfold by exact K.
  rewrite analyzeLocation_try_unfold. fold request. fold outcome.
  destruct Hcase as [(err & ->) | [(response & -> & T) |
     [(response & text & -> & T & M) |
      (response & text & json & e & -> & T & M & P)]]].
  - reflexivity.
  - destruct (response_text response) as [[|c t] |];
      [reflexivity | discriminate | reflexivity].
  - rewrite T. destruct text as [|c t]; [reflexivity |]. now rewrite M.
  - rewrite T. destruct text as [|c t]; [discriminate |].
    now rewrite M, P.
Qed.

(** The service is down; it answers without text; it answers in prose;
    it answers with a span that is not JSON. *)
Lemma resolver_fallback_witness :
  let down := failingBackend {| JS.message := Some "fetch failed";
                                JS.status := None |} in
  let request :=
    LocationRequest "gemini-2.5-flash" (lat eiffel) (lng eiffel) in
  let answer t :=
    @analyzeLocation (constantBackend (textResponse t)) plainHost
      (lat eiffel) (lng eiffel) "secret" [] in
  @analyzeLocation down plainHost (lat eiffel) (lng eiffel) "secret" [] =
    (inr fallbackLocation, [Sent "secret" request])
  /\ answer "" = (inr fallbackLocation, [Sent "secret" request])
  /\ answer "I cannot tell." = (inr fallbackLocation, [Sent "secret" request])
  /\ answer "{ name: Paris }" = (inr fallbackLocation, [Sent "secret" request]).
Proof.
  intros down request answer.
  assert (K : "secret" <> "") by discriminate.
  split; [| split; [| split]].
  - apply (@resolver_fallback down plainHost _ _ "secret" [] K).
    left. eexists. reflexivity.
  - apply (@resolver_fallback (constantBackend (textResponse "")) plainHost
             _ _ "secret" [] K).
    right. left. eexists. split; reflexivity.
  - apply (@resolver_fallback (constantBackend (textResponse "I cannot tell."))
             plainHost _ _ "secret" [] K).
    right. right. left. eexists _, _. repeat split; reflexivity.
  - apply (@resolver_fallback
             (constantBackend (textResponse "{ name: Paris }"))
             plainHost _ _ "secret" [] K).
    right. right. right. eexists _, _, _, _. repeat split; reflexivity.
Defined.

(** C8.  For a response with a non-empty text, the string handed to
    [JSON.parse] is the span of the text from its first opening brace
    through its last closing brace, and the [try] block ends with what
    [JSON.parse] makes of it.  When the text has no opening brace followed
    by a closing brace, the block throws the error "Failed to parse
    location JSON", which the resolver (given a credential) replaces with
    the fallback record. *)
Theorem resolver_json_span `{Backend} `{Host} :
  forall lat lng key h response text,
  let request := LocationRequest "gemini-2.5-flash" lat lng in
  let h' := (h ++ [Sent key request])%list in
  generateContent key h request = inr response ->
  response_text response = Some text ->
  text <> "" ->
  (forall span,
      JS.matchBraces text = Some span <->
      exists pre mid post,
        text = pre ++ "{" ++ mid ++ "}" ++ post
        /\ span = "{" ++ mid ++ "}"
        /\ JS.includes pre "{" = false
        /\ JS.includes post "}" = false)
  /\ (forall span,
        JS.matchBraces text = Some span ->
        analyzeLocation_try lat lng key h = (JSON_parse span, h'))
  /\ (JS.matchBraces text = None <->
      forall a b c, text <> a ++ "{" ++ b ++ "}" ++ c)
  /\ (JS.matchBraces text = None ->
      analyzeLocation_try lat lng key h =
        (inl (JS.Error "Failed to parse location JSON"), h')
      /\ (key <> "" ->
          analyzeLocation lat lng key h = (inr fallbackLocation, h'))).
Proof.
  intros lat lng key h response text request h' E T N.
  destruct text as [|c t]; [contradiction |].
  pose proof (analyzeLocation_try_unfold lat lng key h) as U.
  cbv zeta in U. fold request in U. fold h' in U. rewrite E, T in U.
  split; [| split; [| split]].
  - intros span. apply matchBraces_iff.
  - intros span M. now rewrite U, M.
  - apply matchBraces_none.
  - intros M. rewrite M in U. split; [exact U |].
    intros K. rewrite analyzeLocation_unfold by exact K. now rewrite U.
Qed.

(** A fenced answer followed by prose, and an answer without braces. *)
Lemma resolver_json_span_witness :
  let fenced :=
    "```json { name: Eiffel Tower, weather: { temp: 18 } } ``` Enjoy {your} trip!" in
  JS.matchBraces fenced =
    Some "{ name: Eiffel Tower, weather: { temp: 18 } } ``` Enjoy {your}"
  /\ @analyzeLocation_try (constantBackend (textResponse "No idea")) plainHost
       (lat eiffel) (lng eiffel) "secret" [] =
     (inl (JS.Error "Failed to parse location JSON"),
      [Sent "secret"
         (LocationRequest "gemini-2.5-flash" (lat eiffel) (lng eiffel))]).
Proof.
  intros fenced. split; [reflexivity |].
  destruct (@resolver_json_span (constantBackend (textResponse "No idea"))
              plainHost (lat eiffel) (lng eiffel) "secret" []
              (textResponse "No idea") "No idea" eq_refl eq_refl)
    as (_ & _ & _ & P); [discriminate |].
  exact (proj1 (P eq_refl)).
Defined.

(** C10.  With an empty credential the resolver throws the error "API
    Key is required", sends nothing and does not return the fallback
    record; with any other credential it throws nothing, whatever the
    service does. *)
Theorem resolver_requires_key `{Backend} `{Host} :
  forall lat lng h,
  analyzeLocation lat lng "" h = (inl (JS.Error "API Key is required"), h)
  /\ fst (analyzeLocation lat lng "" h) <> inr fallbackLocation
  /\ forall key,
       key <> "" ->
       exists info,
         analyzeLocation lat lng key h =
         (inr info,
          (h ++ [Sent key (LocationRequest "gemini-2.5-flash" lat lng)])%list).
Proof.
  intros lat lng h. split; [reflexivity | split; [discriminate |]].
  intros key K. rewrite analyzeLocation_unfold by exact K.
  rewrite analyzeLocation_try_unfold.
  destruct (generateContent key h _) as [err | response]; [now eexists |].
  destruct (response_text response) as [[|c t] |]; try now eexists.
  destruct (JS.matchBraces (String c t)) as [json |]; [| now eexists].
  destruct (JSON_parse json); now eexists.
Qed.

(** The resolver on a failing service, without and with a credential. *)
Lemma resolver_requires_key_witness :
  let down := failingBackend {| JS.message := Some "fetch failed";
                                JS.status := None |} in
  @analyzeLocation down plainHost (lat eiffel) (lng eiffel) "" [] =
    (inl (JS.Error "API Key is required"), [])
  /\ exists info,
       @analyzeLocation down plainHost (lat eiffel) (lng eiffel) "secret" [] =
       (inr info,
        [Sent "secret"
           (LocationRequest "gemini-2.5-flash" (lat eiffel) (lng eiffel))]).
Proof.
  intros down.
  destruct (@resolver_requires_key down plainHost (lat eiffel) (lng eiffel) [])
    as (P & _ & Q).
  split; [exact P |]. apply (Q "secret"). discriminate.
Defined.

(* ===================================================================== *)
(** ** The disambiguation policy *)
(* ===================================================================== *)

(** C4.  The location is in the vague state exactly when its [isVague]
    flag is true, the override is off and no image has been generated.
    So the state is vague for a vague location without override and
    without images, and setting the flag to false (or leaving it out),
    turning the override on, or having one image or more each makes it
    not vague.  In the vague state the nearby places are listed and the
    location is not displayed; otherwise the location is displayed, the
    places are not listed, and the generation form is rendered as long as
    no image has been generated. *)
Theorem vague_state_iff :
  forall (info : LocationContext) (override : bool) (images : list string),
  (holds (isVagueState (Some info) override images) = true <->
   isVague info = Some true /\ override = false /\ length images = 0%nat)
  /\ (isVague info = Some true ->
      holds (isVagueState (Some info) false []) = true)
  /\ (isVague info <> Some true ->
      holds (isVagueState (Some info) override images) = false)
  /\ holds (isVagueState (Some info) true images) = false
  /\ (forall image rest,
        holds (isVagueState (Some info) override (image :: rest)) = false)
  /\ showsPoiList (Some info) override images =
     holds (isVagueState (Some info) override images)
  /\ showsLocation (Some info) override images =
     negb (holds (isVagueState (Some info) override images))
  /\ showsGenerationForm (Some info) override images =
     negb (holds (isVagueState (Some info) override images))
     && (length images =? 0)%nat.
Proof.
  intros info override images.
  unfold showsGenerationForm, showsPoiList, showsLocation, isVagueState.
  destruct (isVague info) as [[|] |]; destruct override;
    destruct images as [|image rest]; cbn;
    repeat split; try reflexivity; try discriminate; try tauto;
    try (intros (? & ? & ?); discriminate);
    try (intros ?; exfalso; auto; fail);
    try (intros [? _]; discriminate).
Qed.

(** A vague spot in the ocean, before and after each of the three
    changes. *)
Lemma vague_state_iff_witness :
  let ocean :=
    {| name := "North Atlantic Ocean";
       description := "Open water.";
       weather := {| temp := "12 C"; condition := "Windy" |};
       clothingRecommendation := "Raincoat";
       isVague := Some true;
       nearbyPOIs := Some [ {| poi_name := "Azores";
                               poi_lat := 38 # 1; poi_lng := -(28 # 1) |} ] |} in
  holds (isVagueState (Some ocean) false []) = true
  /\ holds (isVagueState (Some eiffelInfo) false []) = false
  /\ holds (isVagueState (Some ocean) true []) = false
  /\ holds (isVagueState (Some ocean) false ["data:image/png;base64,UE5H"])
     = false.
Proof.
  intros ocean.
  destruct (vague_state_iff ocean false []) as (_ & P & _ & Q & R & _).
  destruct (vague_state_iff eiffelInfo false []) as (_ & _ & N & _).
  split; [apply P; reflexivity |].
  split; [apply N; discriminate |].
  split; [exact Q | apply R].
Defined.

(* ===================================================================== *)
(** ** The orchestrator *)
(* ===================================================================== *)

Section OrchestratorFacts.

Context `{Backend} `{Host}.

(** [handleGenerate] on a resolved location and a readable photo: the
    two shots in sequence, the error handler at the first failure. *)
Lemma handleGenerate_run st h file era year customPrompt style
  selected info dataUrl :
  selectedLocation st = Some selected ->
  locationInfo st = Some info ->
  readAsDataURL file = inr dataUrl ->
  let take :=
    shot st selected info era (JS.splitComma1 dataUrl) year customPrompt
         (match style with Some v => v | None => Realistic end) in
  handleGenerate file era year customPrompt style (st, h) =
  match take "Wide Angle Shot (Establishing Context)" h with
  | (inl err, h1) =>
      handleError err "Image generation failed"
                  (generation st generating_image [], h1)
  | (inr image1, h1) =>
      match take "Medium Shot (Character Interaction)" h1 with
      | (inl err, h2) =>
          handleError err "Image generation failed"
                      (generation st generating_image [image1], h2)
      | (inr image2, h2) =>
          (inr tt, (generation st complete [image1; image2], h2))
      end
  end.
Proof.
  intros Hs Hi Hf take.
  unfold handleGenerate. rewrite Hs, Hi.
  unfold blobToBase64. rewrite Hf.
  cbv [await try_catch call resolve setStatus setErrorMessage
       setGeneratedImages update for_of variations].
  cbn [apiKey apiKeyReady selectedLocation locationInfo status
       generatedImages errorMessage browser].
  fold (shot st selected info era (JS.splitComma1 dataUrl) year customPrompt
          (match style with Some v => v | None => Realistic end)
          "Wide Angle Shot (Establishing Context)").
  fold (shot st selected info era (JS.splitComma1 dataUrl) year customPrompt
          (match style with Some v => v | None => Realistic end)
          "Medium Shot (Character Interaction)").
  fold take.
  destruct (take "Wide Angle Shot (Establishing Context)" h)
    as [[err | image1] h1]; [reflexivity |].
  destruct (take "Medium Shot (Character Interaction)" h1)
    as [[err | image2] h2]; reflexivity.
Qed.

End OrchestratorFacts.

Section ShotFacts.

Context `{Backend} `{Host}.

Lemma promptsOf_app h1 h2 :
  promptsOf (h1 ++ h2)%list = (promptsOf h1 ++ promptsOf h2)%list.
Proof. unfold promptsOf. now rewrite requestsOf_app, map_app. Qed.

(** A shot that returns an image had a credential, and extended the
    history by one to three requests that carry its prompt. *)
Lemma shot_trace st selected info era image year customPrompt style
  variation h result h1 :
  shot st selected info era image year customPrompt style variation h =
    (result, h1) ->
  apiKey st <> "" ->
  exists trace n,
    h1 = (h ++ trace)%list
    /\ (n <= 2)%nat
    /\ promptsOf trace =
       repeat
         (Some (textPrompt (lat selected) (lng selected) (name info) era
                  (condition (weather info)) year customPrompt
                  (VisualStyle_value style) variation))
         (S n).
Proof.
  intros E K.
  pose proof (generateTravelPhoto_history (apiKey st) (lat selected)
                (lng selected) (name info) era image
                (condition (weather info)) year customPrompt
                (Some (VisualStyle_value style)) (Some variation) h) as G.
  fold (shot st selected info era image year customPrompt style variation)
    in G.
  rewrite E in G. cbn [snd] in G.
  destruct (apiKey st) as [|c k]; [contradiction |].
  cbn [JS.defaultTo] in G.
  destruct (makeRequest_trace (String c k)
              (imageRequest
                 (textPrompt (lat selected) (lng selected) (name info) era
                    (condition (weather info)) year customPrompt
                    (VisualStyle_value style) variation) image) 0 h)
    as (trace & n & T & Rq & _ & N & _).
  exists trace, n. rewrite G, T. split; [reflexivity |].
  split; [lia |]. unfold promptsOf. rewrite Rq. now rewrite map_repeat.
Qed.

Lemma shot_needs_key st selected info era image year customPrompt style
  variation h url h1 :
  shot st selected info era image year customPrompt style variation h =
    (inr url, h1) ->
  apiKey st <> "".
Proof.
  unfold shot, generateTravelPhoto. now destruct (apiKey st).
Qed.

(** The prompt names its shot variation. *)
Lemma textPrompt_variation lat lng locationName era weatherCondition year
  customPrompt style variation :
  JS.includes
    (textPrompt lat lng locationName era weatherCondition year customPrompt
                style variation)
    ("- Shot Variation: " ++ variation) = true.
Proof.
  unfold textPrompt. destruct (yearLogic era lat lng year) as [td hi].
  do 10 (rewrite template_cons; apply includes_app_r).
  now apply (includes_template_pair ".
      ").
Qed.

(** What [handleError] does to the component. *)
Lemma handleError_effect err defaultMsg st h :
  exists st' m,
    handleError err defaultMsg (st, h) = (inr tt, (st', h))
    /\ status st' = error
    /\ errorMessage st' = Some m
    /\ generatedImages st' = generatedImages st
    /\ selectedLocation st' = selectedLocation st
    /\ locationInfo st' = locationInfo st
    /\ (if clearsCredential err
        then apiKey st' = "" /\ apiKeyReady st' = false
             /\ gemini_api_key (browser st') = None
        else apiKey st' = apiKey st /\ apiKeyReady st' = apiKeyReady st
             /\ browser st' = browser st).
Proof.
  unfold handleError, clearsCredential.
  destruct (isQuotaMessage (errorText err)).
  - destruct (JS.matchRetryIn (errorText err));
      eexists _, _; cbn; repeat split; reflexivity.
  - destruct (isInvalidKeyMessage (errorText err));
      eexists _, _; cbn; repeat split; reflexivity.
Qed.

End ShotFacts.

(** C6.  Let generation start on a resolved location with a readable
    reference photo, and let the shot labelled "Wide Angle Shot
    (Establishing Context)" and then, from the history it leaves, the shot
    labelled "Medium Shot (Character Interaction)" both return an image.
    Then [handleGenerate] makes exactly these two calls in this order: the
    history it leaves is that of the second shot, and what it adds to the
    initial history is one to three requests with the prompt of the first
    label followed by one to three requests with the prompt of the second.
    The component ends with status [complete], no error message and
    exactly the two images, in call order. *)
Theorem generate_two_shots `{Backend} `{Host} :
  forall st h file era year customPrompt style selected info dataUrl
         image1 image2 h1 h2,
  selectedLocation st = Some selected ->
  locationInfo st = Some info ->
  readAsDataURL file = inr dataUrl ->
  let chosen := match style with Some v => v | None => Realistic end in
  let take :=
    shot st selected info era (JS.splitComma1 dataUrl) year customPrompt
         chosen in
  let prompt :=
    textPrompt (lat selected) (lng selected) (name info) era
      (condition (weather info)) year customPrompt
      (VisualStyle_value chosen) in
  take "Wide Angle Shot (Establishing Context)" h = (inr image1, h1) ->
  take "Medium Shot (Character Interaction)" h1 = (inr image2, h2) ->
  handleGenerate file era year customPrompt style (st, h) =
    (inr tt, (generation st complete [image1; image2], h2))
  /\ status (generation st complete [image1; image2]) = complete
  /\ generatedImages (generation st complete [image1; image2]) =
     [image1; image2]
  /\ length (generatedImages (generation st complete [image1; image2])) =
     2%nat
  /\ (exists n1 n2,
        (n1 <= 2)%nat /\ (n2 <= 2)%nat
        /\ promptsOf (since h h2) =
           (repeat (Some (prompt "Wide Angle Shot (Establishing Context)"))
                   (S n1)
            ++ repeat (Some (prompt "Medium Shot (Character Interaction)"))
                      (S n2))%list)
  /\ JS.includes (prompt "Wide Angle Shot (Establishing Context)")
       "- Shot Variation: Wide Angle Shot (Establishing Context)" = true
  /\ JS.includes (prompt "Medium Shot (Character Interaction)")
       "- Shot Variation: Medium Shot (Character Interaction)" = true.
Proof.
  intros st h file era year customPrompt style selected info dataUrl
         image1 image2 h1 h2 Hs Hi Hf chosen take prompt T1 T2.
  split.
  { rewrite (handleGenerate_run st h file era year customPrompt style
               selected info dataUrl Hs Hi Hf).
    cbv zeta. fold chosen. fold take. now rewrite T1, T2. }
  split; [reflexivity |]. split; [reflexivity |]. split; [reflexivity |].
  split.
  { pose proof (shot_needs_key _ _ _ _ _ _ _ _ _ _ _ _ T1) as K.
    destruct (shot_trace _ _ _ _ _ _ _ _ _ _ _ _ T1 K)
      as (t1 & n1 & -> & N1 & P1).
    destruct (shot_trace _ _ _ _ _ _ _ _ _ _ _ _ T2 K)
      as (t2 & n2 & -> & N2 & P2).
    exists n1, n2. split; [exact N1 |]. split; [exact N2 |].
    rewrite <- app_assoc, since_app, promptsOf_app.
    now rewrite P1, P2. }
  split; apply textPrompt_variation.
Qed.

(** Scenario A: the Eiffel Tower in 1889, cinematic style, on a service
    that returns an image for every request. *)
Lemma generate_two_shots_witness :
  exists h2,
    @handleGenerate (constantBackend (imageResponse "UE5H")) plainHost
      selfie PAST (Some "1889") None (Some Cinematic) (readyState, []) =
    (inr tt,
     (generation readyState complete
        ["data:image/png;base64,UE5H"; "data:image/png;base64,UE5H"], h2))
    /\ length (requestsOf h2) = 2%nat.
Proof.
  pose (take :=
    @shot (constantBackend (imageResponse "UE5H")) plainHost readyState
      eiffel eiffelInfo PAST (Some "QUJD") (Some "1889") None Cinematic).
  pose (h1 := snd (take "Wide Angle Shot (Establishing Context)" [])).
  pose (h2 := snd (take "Medium Shot (Character Interaction)" h1)).
  exists h2. split.
  - apply (@generate_two_shots (constantBackend (imageResponse "UE5H"))
             plainHost readyState [] selfie PAST (Some "1889") None
             (Some Cinematic) eiffel eiffelInfo
             "data:image/jpeg;base64,QUJD"
             "data:image/png;base64,UE5H" "data:image/png;base64,UE5H"
             h1 h2);
      vm_compute; reflexivity.
  - vm_compute. reflexivity.
Defined.

(** C7, as stated, fails: when the failure of a shot reads as an invalid
    credential, the error path also clears the credential.  Here the
    service rejects the key of scenario A. *)
Lemma error_path_clears_credential :
  let rejected :=
    failingBackend
      {| JS.message := Some "API key not valid. [API_KEY_INVALID]";
         JS.status := None |} in
  exists st' hf,
    @handleGenerate rejected plainHost selfie PAST (Some "1889") None
      (Some Cinematic) (readyState, []) = (inr tt, (st', hf))
    /\ status st' = error
    /\ generatedImages st' = []
    /\ apiKey readyState = "secret"
    /\ apiKey st' = ""
    /\ apiKeyReady st' = false
    /\ gemini_api_key (browser st') = None
    /\ ~ sameButStatusAndMessage
           (generation readyState generating_image []) st'.
Proof.
  intros rejected. eexists _, _. split; [vm_compute; reflexivity |].
  repeat split. intros (K & _). discriminate K.
Qed.

(** C7, amended.  When the call for a shot variation fails, the
    component ends with status [error] and an error message, and keeps the
    images of the variations that came before: none when the first call
    fails, the first image when the second call fails.  The selected
    location and its description are unchanged.  The credential, its
    readiness flag and the browser storage are unchanged too, unless the
    text of the error passes the invalid-credential test of the error
    handler (and not its quota test), in which case the credential is
    emptied, marked not ready and removed from the storage. *)
Theorem generation_failure_keeps_images `{Backend} `{Host} :
  forall st h file era year customPrompt style selected info dataUrl
         err hf images,
  selectedLocation st = Some selected ->
  locationInfo st = Some info ->
  readAsDataURL file = inr dataUrl ->
  let take :=
    shot st selected info era (JS.splitComma1 dataUrl) year customPrompt
         (match style with Some v => v | None => Realistic end) in
  (take "Wide Angle Shot (Establishing Context)" h = (inl err, hf)
   /\ images = [])
  \/ (exists image1 h1,
        take "Wide Angle Shot (Establishing Context)" h = (inr image1, h1)
        /\ take "Medium Shot (Character Interaction)" h1 = (inl err, hf)
        /\ images = [image1]) ->
  exists st' m,
    handleGenerate file era year customPrompt style (st, h) =
      (inr tt, (st', hf))
    /\ status st' = error
    /\ errorMessage st' = Some m
    /\ generatedImages st' = images
    /\ selectedLocation st' = selectedLocation st
    /\ locationInfo st' = locationInfo st
    /\ (if clearsCredential err
        then apiKey st' = "" /\ apiKeyReady st' = false
             /\ gemini_api_key (browser st') = None
        else sameButStatusAndMessage
               (generation st generating_image images) st').
Proof.
  intros st h file era year customPrompt style selected info dataUrl
         err hf images Hs Hi Hf take Hfail.
  rewrite (handleGenerate_run st h file era year customPrompt style
             selected info dataUrl Hs Hi Hf).
  cbv zeta. fold take.
  assert (E : exists image0 : list string,
             images = image0 /\
             match take "Wide Angle Shot (Establishing Context)" h with
             | (inl err0, h1) =>
                 handleError err0 "Image generation failed"
                   (generation st generating_image [], h1)
             | (inr image1, h1) =>
                 match take "Medium Shot (Character Interaction)" h1 with
                 | (inl err0, h2) =>
                     handleError err0 "Image generation failed"
                       (generation st generating_image [image1], h2)
                 | (inr image2, h2) =>
                     (inr tt, (generation st complete [image1; image2], h2))
                 end
             end =
             handleError err "Image generation failed"
               (generation st generating_image image0, hf)).
  { destruct Hfail as [(T1 & ->) | (image1 & h1 & T1 & T2 & ->)].
    - exists []. now rewrite T1.
    - exists [image1]. now rewrite T1, T2. }
  destruct E as (image0 & -> & ->).
  destruct (handleError_effect err "Image generation failed"
              (generation st generating_image image0) hf)
    as (st' & m & R & S1 & S2 & S3 & S4 & S5 & S6).
  exists st', m. rewrite R. repeat split; try assumption.
  destruct (clearsCredential err); [exact S6 |].
  destruct S6 as (A & B & C). now repeat split.
Qed.

(** Scenario C and its sequel: the first shot yields no image, so no
    image is kept; the first shot succeeds and the second yields no
    image, so the first image is kept. *)
Lemma generation_failure_keeps_images_witness :
  (exists st' hf,
     @handleGenerate (constantBackend (textResponse "I cannot draw this."))
       plainHost selfie PAST (Some "1889") None (Some Cinematic)
       (readyState, []) = (inr tt, (st', hf))
     /\ status st' = error
     /\ generatedImages st' = []
     /\ errorMessage st' =
        Some "Image generation failed: No image generated")
  /\ (exists st' hf m,
        @handleGenerate (onceBackend (imageResponse "UE5H")) plainHost
          selfie PAST (Some "1889") None (Some Cinematic)
          (readyState, []) = (inr tt, (st', hf))
        /\ status st' = error
        /\ errorMessage st' = Some m
        /\ generatedImages st' = ["data:image/png;base64,UE5H"]
        /\ sameButStatusAndMessage
             (generation readyState generating_image
                ["data:image/png;base64,UE5H"]) st').
Proof.
  split.
  - eexists _, _. split; [vm_compute; reflexivity |]. now repeat split.
  - pose (take :=
      @shot (onceBackend (imageResponse "UE5H")) plainHost readyState
        eiffel eiffelInfo PAST (Some "QUJD") (Some "1889") None Cinematic).
    pose (h1 := snd (take "Wide Angle Shot (Establishing Context)" [])).
    pose (hf := snd (take "Medium Shot (Character Interaction)" h1)).
    destruct (@generation_failure_keeps_images
                (onceBackend (imageResponse "UE5H")) plainHost readyState []
                selfie PAST (Some "1889") None (Some Cinematic) eiffel
                eiffelInfo "data:image/jpeg;base64,QUJD"
                (JS.Error "No image generated") hf
                ["data:image/png;base64,UE5H"] eq_refl eq_refl eq_refl)
      as (st' & m & R & S1 & S2 & S3 & _ & _ & S6).
    + right. exists "data:image/png;base64,UE5H", h1.
      repeat split; vm_compute; reflexivity.
    + assert (C : @clearsCredential plainHost (JS.Error "No image generated")
                  = false) by (vm_compute; reflexivity).
      rewrite C in S6. exists st', hf, m.
      split; [exact R |]. split; [exact S1 |]. split; [exact S2 |].
      split; [exact S3 | exact S6].
Defined.

(* ===================================================================== *)
(** ** Years, as displayed and as sent *)
(* ===================================================================== *)

Section YearFacts.

Lemma readDigits_decimal (d : Decimal.uint) (acc : Z) :
  JS.readDigits 10 (NilEmpty.string_of_uint d) true acc =
  Some (digitsValue d acc).
Proof.
  revert acc. induction d; intros acc; cbn [NilEmpty.string_of_uint
    digitsValue JS.readDigits]; [reflexivity | ..];
    (change (JS.radixDigit 10 _) with (Some 0)
     || change (JS.radixDigit 10 _) with (Some 1)
     || change (JS.radixDigit 10 _) with (Some 2)
     || change (JS.radixDigit 10 _) with (Some 3)
     || change (JS.radixDigit 10 _) with (Some 4)
     || change (JS.radixDigit 10 _) with (Some 5)
     || change (JS.radixDigit 10 _) with (Some 6)
     || change (JS.radixDigit 10 _) with (Some 7)
     || change (JS.radixDigit 10 _) with (Some 8)
     || change (JS.radixDigit 10 _) with (Some 9));
    cbv iota; apply IHd.
Qed.

Lemma digitsValue_acc (d : Decimal.uint) (acc : positive) :
  Z.pos (Pos.of_uint_acc d acc) = digitsValue d (Z.pos acc).
Proof.
  revert acc. induction d; intros acc; cbn [Pos.of_uint_acc digitsValue];
    [reflexivity | ..]; rewrite IHd; f_equal; lia.
Qed.

Lemma digitsValue_of_uint (d : Decimal.uint) :
  Z.of_N (Pos.of_uint d) = digitsValue d 0.
Proof.
  induction d; cbn [Pos.of_uint digitsValue]; [reflexivity | exact IHd | ..];
    cbn [Z.of_N]; rewrite digitsValue_acc; reflexivity.
Qed.

Lemma digitsValue_to_uint (p : positive) :
  digitsValue (Pos.to_uint p) 0 = Z.pos p.
Proof.
  rewrite <- digitsValue_of_uint, DecimalPos.Unsigned.of_to. reflexivity.
Qed.

(** [parseInt] on the digits of a positive number, with or without a
    minus sign. *)
Lemma parseInt_digits (p : positive) :
  JS.parseInt (NilEmpty.string_of_uint (Pos.to_uint p)) = Some (Z.pos p)
  /\ JS.parseInt (String "-" (NilEmpty.string_of_uint (Pos.to_uint p))) =
     Some (Z.neg p).
Proof.
  pose proof (digitsValue_to_uint p) as V.
  pose proof (DecimalPos.Unsigned.to_uint_nonnil p) as N.
  assert (R : forall d, d <> Decimal.Nil ->
            JS.parseInt (NilEmpty.string_of_uint d) = Some (digitsValue d 0)
            /\ JS.parseInt (String "-" (NilEmpty.string_of_uint d)) =
               Some (- digitsValue d 0)).
  { intros d Hd. destruct d as [|d|d|d|d|d|d|d|d|d|d]; [contradiction | ..].
    1: destruct d as [|d|d|d|d|d|d|d|d|d|d].
    all: unfold JS.parseInt;
      repeat first
        [ progress cbn [NilEmpty.string_of_uint JS.trimStart JS.readDigits]
        | progress cbv beta iota zeta
        | match goal with
          | |- context [JS.isWhiteSpace ?c] =>
              let v := eval vm_compute in (JS.isWhiteSpace c) in
              change (JS.isWhiteSpace c) with v
          | |- context [JS.radixDigit 10 ?c] =>
              let v := eval vm_compute in (JS.radixDigit 10 c) in
              change (JS.radixDigit 10 c) with v
          end ];
      rewrite ?readDigits_decimal; cbn [digitsValue];
      split; f_equal; lia. }
  destruct (R _ N) as [R1 R2]. rewrite V in R1, R2. now split.
Qed.

(** Printing an integer and reading it back with [parseInt] gives the
    integer. *)
Lemma parseInt_Z_toString (z : Z) : JS.parseInt (JS.Z_toString z) = Some z.
Proof.
  unfold JS.Z_toString. destruct z as [|p|p]; [reflexivity | |];
    cbn [Z.to_int NilZero.string_of_int NilZero.string_of_uint];
    pose proof (DecimalPos.Unsigned.to_uint_nonnil p) as N;
    destruct (parseInt_digits p) as [R1 R2];
    destruct (Pos.to_uint p); try contradiction; assumption.
Qed.

End YearFacts.

(** X1.  The year label of the sidebar, on the decimal form of an
    integer within the exact range: the magnitude followed by " B.C."
    when the integer is negative, the integer followed by " A.D."
    otherwise; reading the decimal form back with [parseInt] gives the
    integer. *)
Theorem year_label_of_integer :
  forall z,
  Z.abs z <= JS.MAX_SAFE_INTEGER ->
  JS.parseInt (JS.Z_toString z) = Some z
  /\ formatYearDisplay (JS.Z_toString z) =
     if z <? 0 then JS.Z_toString (Z.abs z) ++ " B.C."
     else JS.Z_toString z ++ " A.D.".
Proof.
  intros z _. pose proof (parseInt_Z_toString z) as P.
  split; [exact P |]. unfold formatYearDisplay. now rewrite P.
Qed.

(** The ends of the year slider and the default years. *)
Lemma year_label_of_integer_witness :
  formatYearDisplay "-10000" = "10000 B.C."
  /\ formatYearDisplay "2077" = "2077 A.D."
  /\ formatYearDisplay "0" = "0 A.D.".
Proof.
  split; [| split].
  - apply (proj2 (year_label_of_integer (-10000) ltac:(vm_compute; discriminate))).
  - apply (proj2 (year_label_of_integer 2077 ltac:(vm_compute; discriminate))).
  - apply (proj2 (year_label_of_integer 0 ltac:(vm_compute; discriminate))).
Defined.

(** X2.  For a year that [parseInt] reads as a negative integer, the
    label the sidebar displays occurs word for word in the prompt; a year
    that [parseInt] does not read is displayed, and sent, as typed. *)
Theorem year_label_in_prompt `{Host} :
  forall lat lng locationName era weatherCondition customPrompt
         style variation year,
  year <> "" ->
  match JS.parseInt year with
  | Some z =>
      z < 0 ->
      JS.includes
        (textPrompt lat lng locationName era weatherCondition (Some year)
                    customPrompt style variation)
        (formatYearDisplay year) = true
  | None =>
      formatYearDisplay year = year
      /\ JS.includes
           (textPrompt lat lng locationName era weatherCondition
                       (Some year) customPrompt style variation)
           ("the year " ++ year) = true
  end.
Proof.
  intros lat lng locationName era weatherCondition customPrompt style
         variation year Hy.
  destruct (JS.parseInt year) as [z |] eqn:P.
  - intros Hz. apply textPrompt_includes. left.
    rewrite (yearLogic_parsed era lat lng year z P).
    unfold formatYearDisplay. rewrite P.
    apply Z.ltb_lt in Hz. rewrite Hz. cbn [fst].
    apply timeDescription_BC_includes.
  - split; [unfold formatYearDisplay; now rewrite P |].
    apply textPrompt_includes. left.
    destruct year as [|c y]; [contradiction |].
    unfold yearLogic. cbv zeta. rewrite P. cbn [fst].
    apply timeDescription_AD_includes.
Qed.

(** The year 500 before Christ, and a year in words. *)
Lemma year_label_in_prompt_witness :
  JS.includes
    (@textPrompt plainHost (lat eiffel) (lng eiffel) "Eiffel Tower" PAST
       "Cloudy" (Some "-500") None "Realistic" "Standard Shot")
    (formatYearDisplay "-500") = true
  /\ formatYearDisplay "long ago" = "long ago".
Proof.
  split.
  - apply (@year_label_in_prompt plainHost (lat eiffel) (lng eiffel)
             "Eiffel Tower" PAST "Cloudy" None "Realistic" "Standard Shot"
             "-500"); [discriminate | reflexivity].
  - apply (@year_label_in_prompt plainHost (lat eiffel) (lng eiffel)
             "Eiffel Tower" PAST "Cloudy" None "Realistic" "Standard Shot"
             "long ago"). discriminate.
Defined.

(* ===================================================================== *)
(** ** More on the retry loop *)
(* ===================================================================== *)

Section BackoffFacts.

Context `{Backend}.

Variables (key : string) (request : Request).

Lemma decimalValue_span (s : string) (acc : Z) :
  0 <= acc -> 0 <= JS.decimalValue (fst (JS.spanDigits s)) acc.
Proof.
  revert acc. induction s as [|c s IH]; intros acc A; [exact A |].
  cbn [JS.spanDigits]. destruct (JS.isDigit c) eqn:D; [| exact A].
  destruct (JS.spanDigits s) as [d r]. cbn [fst JS.decimalValue] in *.
  apply IH. unfold JS.isDigit in D. apply andb_true_iff in D.
  destruct D as [D _]. apply Nat.leb_le in D. lia.
Qed.

Lemma parseFloat_nonneg (s : string) (q : Q) :
  JS.parseFloat s = Some q -> 0 <= Qnum q.
Proof.
  unfold JS.parseFloat.
  pose proof (decimalValue_span s 0 (Z.le_refl 0)) as I.
  destruct (JS.spanDigits s) as [ip r]. cbn [fst] in I.
  set (fp := match r with
             | String "." r' => fst (JS.spanDigits r')
             | _ => ""
             end).
  assert (F : 0 <= JS.decimalValue fp (JS.decimalValue ip 0)).
  { subst fp. destruct r as [|c r']; [exact I |].
    destruct c as [[|] [|] [|] [|] [|] [|] [|] [|]]; try exact I.
    now apply decimalValue_span. }
  destruct ip, fp; intros [= <-]; exact F.
Qed.

Lemma Math_ceil_nonneg (q : Q) : 0 <= Qnum q -> 0 <= JS.Math_ceil q.
Proof.
  intros N. unfold JS.Math_ceil, Qceiling, Qfloor. destruct q as [n d].
  cbn [Qopp Qnum Qden] in *.
  assert (- n / Z.pos d <= 0) by (apply Z.div_le_upper_bound; lia).
  lia.
Qed.

(** A computed delay is at least the two-second buffer. *)
Lemma retryDelay_lower (err : JS.Thrown) (k : nat) (delay : Z) :
  retryDelay err k = Some delay -> 2000 <= delay.
Proof.
  unfold retryDelay. cbv zeta. destruct (retryHint err) as [seconds |].
  - destruct (JS.parseFloat seconds) as [q |] eqn:P; [| discriminate].
    intros [= <-]. pose proof (Math_ceil_nonneg q (parseFloat_nonneg _ _ P)).
    lia.
  - intros E.
    assert (D : delay = 3000 * 2 ^ Z.of_nat k) by congruence.
    assert (0 < 2 ^ Z.of_nat k) by (apply Z.pow_pos_nonneg; lia). lia.
Qed.

Lemma makeRequest_waits k h :
  exists trace,
    snd (makeRequest key request k h) = (h ++ trace)%list
    /\ Forall (fun ms => 2000 <= ms < 70000) (waitsOf trace)
    /\ (length (waitsOf trace) <= 2 - k)%nat
    /\ length (requestsOf trace) = S (length (waitsOf trace)).
Proof.
  remember (2 - k)%nat as budget eqn:B.
  revert k h B.
  induction budget as [| budget IH]; intros k h B.
  - destruct (makeRequest_step key request k h)
      as [(result & M & _) | (e & d & _ & _ & K & _)]; [| lia].
    exists [Sent key request]. rewrite M. cbn.
    repeat split; [constructor | lia].
  - destruct (makeRequest_step key request k h)
      as [(result & M & _) | (e & d & _ & _ & K & D & L & M)].
    + exists [Sent key request]. rewrite M. cbn.
      repeat split; [constructor | lia].
    + destruct (IH (S k) (h ++ [Sent key request; Waited d])%list)
        as (trace & T & F & N & R); [lia |].
      exists (Sent key request :: Waited d :: trace).
      rewrite M, T, <- app_assoc. cbn.
      repeat split; [| lia | now rewrite R].
      constructor; [| exact F].
      pose proof (retryDelay_lower e k d D). lia.
Qed.

(** Whatever [makeRequest] returns or throws is the outcome of the last
    request it sent. *)
Lemma makeRequest_last k h :
  exists earlier,
    makeRequest key request k h =
    (generateContent key (h ++ earlier)%list request,
     ((h ++ earlier) ++ [Sent key request])%list).
Proof.
  remember (2 - k)%nat as budget eqn:B.
  revert k h B.
  induction budget as [| budget IH]; intros k h B.
  - destruct (makeRequest_step key request k h)
      as [(result & M & ->) | (e & d & _ & _ & K & _)]; [| lia].
    exists []. now rewrite app_nil_r.
  - destruct (makeRequest_step key request k h)
      as [(result & M & ->) | (e & d & _ & _ & K & _ & _ & M)].
    + exists []. now rewrite app_nil_r.
    + destruct (IH (S k) (h ++ [Sent key request; Waited d])%list)
        as (earlier & E); [lia |].
      exists ([Sent key request; Waited d] ++ earlier)%list.
      rewrite M, E. now rewrite !app_assoc.
Qed.

End BackoffFacts.

(** X3.  Within one invocation of [makeRequest], every wait lasts at
    least 2 seconds and less than 70, there are at most two of them, and
    they add up to less than 140 seconds. *)
Theorem retry_waits_bounded `{Backend} :
  forall key request h,
  let added := since h (snd (makeRequest key request 0 h)) in
  Forall (fun ms => 2000 <= ms < 70000) (waitsOf added)
  /\ (length (waitsOf added) <= 2)%nat
  /\ 0 <= totalWait added < 140000.
Proof.
  intros key request h added.
  destruct (makeRequest_waits key request 0 h) as (trace & T & F & N & _).
  subst added. rewrite T, since_app.
  split; [exact F |]. split; [exact N |].
  unfold totalWait. destruct (waitsOf trace) as [|a [|b [|c l]]];
    cbn [fold_right length] in *; [lia | | | lia].
  - inversion F; subst. lia.
  - inversion F as [|? ? Fa F']; subst. inversion F'; subst. lia.
Qed.

(** X4.  When no failure of the service suggests a delay, the waits of
    an invocation are the first zero, one or two terms of 3000, 6000, so
    the invocation waits 9 seconds at most. *)
Theorem default_backoff `{Backend} :
  forall key request h,
  (forall h0 err,
      generateContent key h0 request = inl err -> retryHint err = None) ->
  let added := since h (snd (makeRequest key request 0 h)) in
  (waitsOf added = [] \/ waitsOf added = [3000]
   \/ waitsOf added = [3000; 6000])
  /\ totalWait added <= 9000.
Proof.
  intros key request h NoHint added.
  assert (D : forall h0 err k delay,
             generateContent key h0 request = inl err ->
             retryDelay err k = Some delay ->
             delay = 3000 * 2 ^ Z.of_nat k).
  { intros h0 err k delay E R. unfold retryDelay in R.
    rewrite (NoHint h0 err E) in R. cbv zeta in R. congruence. }
  assert (W : waitsOf added = [] \/ waitsOf added = [3000]
              \/ waitsOf added = [3000; 6000]).
  { subst added.
    destruct (makeRequest_step key request 0 h)
      as [(r0 & M0 & _) | (e0 & d0 & E0 & _ & _ & R0 & _ & M0)].
    { left. rewrite M0. cbn [snd]. now rewrite since_app. }
    rewrite (D _ _ _ _ E0 R0) in M0. change (3000 * 2 ^ Z.of_nat 0) with 3000 in M0.
    destruct (makeRequest_step key request 1
                (h ++ [Sent key request; Waited 3000])%list)
      as [(r1 & M1 & _) | (e1 & d1 & E1 & _ & _ & R1 & _ & M1)].
    { right. left. rewrite M0, M1. cbn [snd].
      rewrite <- app_assoc, since_app. reflexivity. }
    rewrite (D _ _ _ _ E1 R1) in M1. change (3000 * 2 ^ Z.of_nat 1) with 6000 in M1.
    destruct (makeRequest_step key request 2
                ((h ++ [Sent key request; Waited 3000])
                   ++ [Sent key request; Waited 6000])%list)
      as [(r2 & M2 & _) | (e2 & d2 & _ & _ & K & _)]; [| lia].
    right. right. rewrite M0, M1, M2. cbn [snd].
    rewrite <- !app_assoc, since_app. reflexivity. }
  split; [exact W |]. unfold totalWait.
  destruct W as [-> | [-> | ->]]; cbn; lia.
Qed.

(** Three failures in a row without a suggestion. *)
Lemma default_backoff_witness :
  let busy := {| JS.message := Some "Too many requests";
                 JS.status := Some 429 |} in
  let request := imageRequest "prompt" (Some "QUJD") in
  waitsOf (snd (@makeRequest (failingBackend busy) "secret" request 0 []))
  = [3000; 6000].
Proof.
  intros busy request.
  destruct (@default_backoff (failingBackend busy) "secret" request [])
    as [[W | [W | W]] _].
  - intros h0 err [= <-]. reflexivity.
  - exfalso. vm_compute in W. discriminate W.
  - exfalso. vm_compute in W. discriminate W.
  - exact W.
Defined.

(* ===================================================================== *)
(** ** What the image client returns and throws *)
(* ===================================================================== *)

Section OutcomeFacts.

Context `{Backend} `{Host}.

(** The loop over the parts stops at the first part with inline data. *)
Lemma firstInlineData_some (ps : list Part) (d : InlineData) :
  firstInlineData ps = Some d <->
  exists before part after,
    ps = (before ++ part :: after)%list
    /\ noInlineData before
    /\ inlineData part = Some d.
Proof.
  unfold noInlineData. split.
  - induction ps as [|p ps IH]; [discriminate |].
    cbn [firstInlineData]. destruct (inlineData p) as [d' |] eqn:E.
    + intros [= ->]. exists [], p, ps. repeat split; [constructor | exact E].
    + intros F. destruct (IH F) as (before & part & after & -> & N & P).
      exists (p :: before), part, after.
      repeat split; [now constructor | exact P].
  - intros (before & part & after & -> & N & P).
    induction N as [|p before E N IH]; cbn [app firstInlineData].
    + now rewrite P.
    + now rewrite E.
Qed.

Lemma firstInlineData_none (ps : list Part) :
  firstInlineData ps = None <-> noInlineData ps.
Proof.
  unfold noInlineData. induction ps as [|p ps IH]; cbn [firstInlineData].
  - split; [constructor | reflexivity].
  - destruct (inlineData p) eqn:E.
    + split; [discriminate |]. intros N. inversion N; congruence.
    + rewrite IH. split; [now constructor | now inversion 1].
Qed.

(** [generateTravelPhoto] with a credential: the outcome of the last
    request, and what is made of it. *)
Lemma generateTravelPhoto_last key lat lng locationName era image
  weatherCondition year customPrompt style variation h :
  key <> "" ->
  let request :=
    imageRequest
      (textPrompt lat lng locationName era weatherCondition year
         customPrompt (JS.defaultTo style "Realistic")
         (JS.defaultTo variation "Standard Shot")) image in
  exists earlier,
    generateTravelPhoto key lat lng locationName era image weatherCondition
      year customPrompt style variation h =
    (match generateContent key (h ++ earlier)%list request with
     | inl err => inl err
     | inr response =>
         match firstInlineData (responseParts response) with
         | Some d => inr ("data:image/png;base64," ++ JS.interpolate (data d))
         | None => inl (JS.Error "No image generated")
         end
     end,
     ((h ++ earlier) ++ [Sent key request])%list).
Proof.
  intros K request. unfold generateTravelPhoto.
  destruct key as [|c k]; [contradiction |]. fold request.
  destruct (makeRequest_last (String c k) request 0 h) as (earlier & M).
  exists earlier. unfold await. rewrite M.
  destruct (generateContent (String c k) (h ++ earlier)%list request)
    as [err | response]; [reflexivity |].
  now destruct (firstInlineData (responseParts response)).
Qed.

End OutcomeFacts.

(** X5.  An image URL returned by [generateTravelPhoto] is
    ["data:image/png;base64,"] followed by the data of the first part with
    inline data in the response to the last request sent; the media type
    that part declares plays no role. *)
Theorem generated_image_url `{Backend} `{Host} :
  forall key lat lng locationName era image weatherCondition year
         customPrompt style variation h url h',
  generateTravelPhoto key lat lng locationName era image weatherCondition
    year customPrompt style variation h = (inr url, h') ->
  let request :=
    imageRequest
      (textPrompt lat lng locationName era weatherCondition year
         customPrompt (JS.defaultTo style "Realistic")
         (JS.defaultTo variation "Standard Shot")) image in
  key <> ""
  /\ exists earlier response before part after d,
       h' = ((h ++ earlier) ++ [Sent key request])%list
       /\ generateContent key (h ++ earlier)%list request = inr response
       /\ responseParts response = (before ++ part :: after)%list
       /\ noInlineData before
       /\ inlineData part = Some d
       /\ url = "data:image/png;base64," ++ JS.interpolate (data d).
Proof.
  intros key lat lng locationName era image weatherCondition year
         customPrompt style variation h url h' G request.
  assert (K : key <> "").
  { intros ->. discriminate G. }
  split; [exact K |].
  destruct (generateTravelPhoto_last key lat lng locationName era image
              weatherCondition year customPrompt style variation h K)
    as (earlier & L).
  cbv zeta in L. fold request in L. rewrite L in G.
  destruct (generateContent key (h ++ earlier)%list request)
    as [err | response] eqn:E; [discriminate G |].
  destruct (firstInlineData (responseParts response)) as [d |] eqn:F;
    [| discriminate G].
  apply firstInlineData_some in F.
  destruct F as (before & part & after & P & N & D).
  injection G as <- <-.
  now exists earlier, response, before, part, after, d.
Qed.

(** A response whose text part comes before a JPEG part. *)
Lemma generated_image_url_witness :
  let response :=
    {| response_text := Some "Here is your photo.";
       candidates :=
         Some [ {| content :=
                     Some {| parts :=
                       Some [ {| text := Some "Here is your photo.";
                                 inlineData := None |};
                              {| text := None;
                                 inlineData :=
                                   Some {| mimeType := "image/jpeg";
                                           data := Some "SlBFRw" |} |} ] |} |} ] |} in
  fst (@generateTravelPhoto (constantBackend response) plainHost "secret"
         (lat eiffel) (lng eiffel) "Eiffel Tower" PAST (Some "QUJD")
         "Cloudy" (Some "1889") None None None []) =
  inr "data:image/png;base64,SlBFRw".
Proof.
  intros response.
  destruct (@generateTravelPhoto (constantBackend response) plainHost
              "secret" (lat eiffel) (lng eiffel) "Eiffel Tower" PAST
              (Some "QUJD") "Cloudy" (Some "1889") None None None [])
    as [[err | url] h'] eqn:G.
  - exfalso. vm_compute in G. discriminate G.
  - destruct (@generated_image_url (constantBackend response) plainHost
                _ _ _ _ _ _ _ _ _ _ _ _ _ _ G) as (_ & _).
    cbn [fst]. vm_compute in G. congruence.
Defined.

(** X6.  [generateTravelPhoto] throws in three cases only.  Without a
    credential it throws "API Key is required" and sends nothing.
    Otherwise it throws the failure of the last request it sent, or, when
    that request was answered without any inline data, "No image
    generated"; failures of earlier attempts are never thrown. *)
Theorem generation_failures `{Backend} `{Host} :
  forall key lat lng locationName era image weatherCondition year
         customPrompt style variation h err h',
  generateTravelPhoto key lat lng locationName era image weatherCondition
    year customPrompt style variation h = (inl err, h') ->
  let request :=
    imageRequest
      (textPrompt lat lng locationName era weatherCondition year
         customPrompt (JS.defaultTo style "Realistic")
         (JS.defaultTo variation "Standard Shot")) image in
  (key = "" /\ err = JS.Error "API Key is required" /\ h' = h)
  \/ (key <> ""
      /\ exists earlier,
           h' = ((h ++ earlier) ++ [Sent key request])%list
           /\ (generateContent key (h ++ earlier)%list request = inl err
               \/ exists response,
                    generateContent key (h ++ earlier)%list request =
                      inr response
                    /\ noInlineData (responseParts response)
                    /\ err = JS.Error "No image generated")).
Proof.
  intros key lat lng locationName era image weatherCondition year
         customPrompt style variation h err h' G request.
  destruct key as [|c k].
  - left. cbn in G. injection G as <- <-. now repeat split.
  - right. split; [discriminate |].
    destruct (generateTravelPhoto_last (String c k) lat lng locationName era
                image weatherCondition year customPrompt style variation h)
      as (earlier & L); [discriminate |].
    cbv zeta in L. fold request in L. rewrite L in G.
    exists earlier.
    destruct (generateContent (String c k) (h ++ earlier)%list request)
      as [e | response] eqn:E.
    + injection G as <- <-. split; [reflexivity | now left].
    + destruct (firstInlineData (responseParts response)) as [d |] eqn:F;
        [discriminate G |].
      injection G as <- <-. split; [reflexivity |]. right.
      exists response. apply firstInlineData_none in F. now repeat split.
Qed.

(** A service that answers in words only. *)
Lemma generation_failures_witness :
  fst (@generateTravelPhoto
         (constantBackend (textResponse "I cannot draw this.")) plainHost
         "secret" (lat eiffel) (lng eiffel) "Eiffel Tower" PAST
         (Some "QUJD") "Cloudy" (Some "1889") None None None []) =
  inl (JS.Error "No image generated").
Proof.
  destruct (@generateTravelPhoto
              (constantBackend (textResponse "I cannot draw this."))
              plainHost "secret" (lat eiffel) (lng eiffel) "Eiffel Tower"
              PAST (Some "QUJD") "Cloudy" (Some "1889") None None None [])
    as [[err | url] h'] eqn:G.
  - destruct (@generation_failures
                (constantBackend (textResponse "I cannot draw this."))
                plainHost _ _ _ _ _ _ _ _ _ _ _ _ _ _ G)
      as [(K & _) | (_ & earlier & _ & [E | (response & _ & _ & ->)])].
    + discriminate K.
    + discriminate E.
    + reflexivity.
  - exfalso. vm_compute in G. discriminate G.
Defined.

(* ===================================================================== *)
(** ** The reference photo *)
(* ===================================================================== *)

Section DataUrlFacts.

Lemma untilComma_app (payload rest : string) :
  lacks payload "," ->
  JS.untilComma (payload ++ "," ++ rest) = payload
  /\ JS.untilComma payload = payload.
Proof.
  unfold lacks. induction payload as [|c p IH]; intros L; [now split |].
  rewrite includes_char_cons in L. apply orb_false_iff in L.
  destruct L as [C L]. rewrite Ascii.eqb_sym in C.
  change (String c p ++ "," ++ rest) with (String c (p ++ "," ++ rest)).
  cbn [JS.untilComma]. rewrite C.
  destruct (IH L) as [I1 I2]. now rewrite I1, I2.
Qed.

Lemma splitComma1_app (header rest : string) :
  lacks header "," ->
  JS.splitComma1 (header ++ "," ++ rest) = Some (JS.untilComma rest).
Proof.
  unfold lacks. induction header as [|c p IH]; intros L; [reflexivity |].
  rewrite includes_char_cons in L. apply orb_false_iff in L.
  destruct L as [C L]. rewrite Ascii.eqb_sym in C.
  change (String c p ++ "," ++ rest) with (String c (p ++ "," ++ rest)).
  cbn [JS.splitComma1]. rewrite C. now apply IH.
Qed.

Lemma splitComma1_none (s : string) :
  lacks s "," -> JS.splitComma1 s = None.
Proof.
  unfold lacks. induction s as [|c s IH]; intros L; [reflexivity |].
  rewrite includes_char_cons in L. apply orb_false_iff in L.
  destruct L as [C L]. rewrite Ascii.eqb_sym in C.
  cbn [JS.splitComma1]. rewrite C. now apply IH.
Qed.

End DataUrlFacts.

(** X7.  [blobToBase64] never touches the history.  On a data URL made
    of a header, a comma and a payload, neither of which holds a comma, it
    returns the payload; in particular it returns the data of an image URL
    that [generateTravelPhoto] built.  What follows a second comma is
    dropped, and on a URL without comma the result is [undefined]. *)
Theorem blobToBase64_payload :
  forall header payload h,
  lacks header "," ->
  lacks payload "," ->
  blobToBase64 {| readAsDataURL := inr (header ++ "," ++ payload) |} h =
    (inr (Some payload), h)
  /\ blobToBase64
       {| readAsDataURL := inr ("data:image/png;base64," ++ payload) |} h =
     (inr (Some payload), h)
  /\ (forall rest,
        blobToBase64
          {| readAsDataURL := inr (header ++ "," ++ payload ++ "," ++ rest) |}
          h = (inr (Some payload), h))
  /\ blobToBase64 {| readAsDataURL := inr header |} h = (inr None, h).
Proof.
  intros header payload h Lh Lp. unfold blobToBase64, resolve.
  cbn [readAsDataURL].
  destruct (untilComma_app payload "" Lp) as [_ U].
  split; [| split; [| split]].
  - now rewrite splitComma1_app, U.
  - change ("data:image/png;base64," ++ payload)
      with ("data:image/png;base64" ++ "," ++ payload).
    rewrite splitComma1_app by reflexivity. now rewrite U.
  - intros rest. rewrite splitComma1_app by exact Lh.
    now rewrite (proj1 (untilComma_app payload rest Lp)).
  - now rewrite splitComma1_none.
Qed.

(** The photo of scenario A. *)
Lemma blobToBase64_payload_witness :
  blobToBase64 selfie [] = (inr (Some "QUJD"), []).
Proof.
  apply (blobToBase64_payload "data:image/jpeg;base64" "QUJD" []);
    reflexivity.
Defined.

(** X8.  With a credential, when the text of the response is a span in
    braces that [JSON.parse] accepts, preceded by text without opening
    brace and followed by text without closing brace (a code fence, say),
    the resolver returns the parsed record after its single request. *)
Theorem resolver_reads_fenced_json `{Backend} `{Host} :
  forall lat lng key h response pre mid post info,
  let request := LocationRequest "gemini-2.5-flash" lat lng in
  key <> "" ->
  generateContent key h request = inr response ->
  response_text response = Some (pre ++ "{" ++ mid ++ "}" ++ post) ->
  lacks pre "{" ->
  lacks post "}" ->
  JSON_parse ("{" ++ mid ++ "}") = inr info ->
  analyzeLocation lat lng key h =
    (inr info, (h ++ [Sent key request])%list).
Proof.
  intros lat lng key h response pre mid post info request K E T Lpre Lpost P.
  rewrite analyzeLocation_unfold by exact K.
  rewrite analyzeLocation_try_unfold. fold request. rewrite E, T.
  assert (M : JS.matchBraces (pre ++ "{" ++ mid ++ "}" ++ post) =
              Some ("{" ++ mid ++ "}")).
  { apply matchBraces_iff. now exists pre, mid, post. }
  destruct (pre ++ "{" ++ mid ++ "}" ++ post) as [|c t] eqn:S.
  - destruct pre; discriminate S.
  - now rewrite M, P.
Qed.

(** A fenced answer. *)
Lemma resolver_reads_fenced_json_witness :
  @analyzeLocation (constantBackend (textResponse "```json { Paris } ```"))
    (acceptingHost eiffelInfo) (lat eiffel) (lng eiffel) "secret" [] =
  (inr eiffelInfo,
   [Sent "secret"
      (LocationRequest "gemini-2.5-flash" (lat eiffel) (lng eiffel))]).
Proof.
  apply (@resolver_reads_fenced_json
           (constantBackend (textResponse "```json { Paris } ```"))
           (acceptingHost eiffelInfo) (lat eiffel) (lng eiffel) "secret" []
           (textResponse "```json { Paris } ```")
           "```json " " Paris " " ```" eiffelInfo);
    (discriminate || reflexivity).
Defined.

(* ===================================================================== *)
(** ** The handlers of the component *)
(* ===================================================================== *)

Section HandlerFacts.

Context `{Backend} `{Host}.

(** With a credential the resolver returns a record after one request. *)
Lemma analyzeLocation_returns lat lng key h :
  key <> "" ->
  exists info,
    analyzeLocation lat lng key h =
    (inr info,
     (h ++ [Sent key (LocationRequest "gemini-2.5-flash" lat lng)])%list).
Proof.
  intros K. rewrite analyzeLocation_unfold by exact K.
  rewrite analyzeLocation_try_unfold.
  destruct (generateContent key h _) as [err | response]; [now eexists |].
  destruct (response_text response) as [[|c t] |]; try now eexists.
  destruct (JS.matchBraces (String c t)) as [json |]; [| now eexists].
  destruct (JSON_parse json); now eexists.
Qed.

(** The message [handleError] sets is never empty. *)
Lemma handleError_message err defaultMsg st h :
  exists st' m,
    handleError err defaultMsg (st, h) = (inr tt, (st', h))
    /\ errorMessage st' = Some m
    /\ JS.truthy (Some m) = true
    /\ status st' = error
    /\ generatedImages st' = generatedImages st
    /\ selectedLocation st' = selectedLocation st
    /\ locationInfo st' = locationInfo st
    /\ keptOrCleared st st'
    /\ (clearsCredential err = true -> apiKeyReady st' = false)
    /\ (clearsCredential err = false -> sameCredential st st').
Proof.
  unfold handleError, clearsCredential, keptOrCleared, sameCredential.
  destruct (isQuotaMessage (errorText err)).
  - destruct (JS.matchRetryIn (errorText err));
      eexists _, _; cbn; repeat split; try reflexivity; try discriminate;
      now left.
  - destruct (isInvalidKeyMessage (errorText err)).
    + eexists _, _; cbn; repeat split; try reflexivity; try discriminate.
      now right.
    + eexists _, _; cbn; repeat split; try reflexivity; try discriminate;
        [now destruct defaultMsg | now left].
Qed.

Lemma handleGenerate_idle st h file era year customPrompt style :
  selectedLocation st = None \/ locationInfo st = None ->
  handleGenerate file era year customPrompt style (st, h) = (inr tt, (st, h)).
Proof.
  unfold handleGenerate.
  intros [E | E]; rewrite E; [reflexivity |].
  now destruct (selectedLocation st).
Qed.

Lemma handleGenerate_unreadable st h file era year customPrompt style
  selected info event :
  selectedLocation st = Some selected ->
  locationInfo st = Some info ->
  readAsDataURL file = inl event ->
  handleGenerate file era year customPrompt style (st, h) =
  handleError event "Image generation failed"
              (generation st generating_image [], h).
Proof.
  intros Hs Hi Hf. unfold handleGenerate. rewrite Hs, Hi.
  unfold blobToBase64. rewrite Hf. reflexivity.
Qed.

Lemma totalWait_app h1 h2 :
  totalWait (h1 ++ h2)%list = totalWait h1 + totalWait h2.
Proof.
  unfold totalWait. rewrite waitsOf_app.
  induction (waitsOf h1) as [|w ws IH]; cbn; [reflexivity | lia].
Qed.

(** A shot adds at most three requests and less than 140 seconds of
    waiting. *)
Lemma shot_bounds st selected info era image year customPrompt style
  variation h :
  exists trace,
    snd (shot st selected info era image year customPrompt style variation h)
    = (h ++ trace)%list
    /\ (length (requestsOf trace) <= 3)%nat
    /\ 0 <= totalWait trace < 140000.
Proof.
  unfold shot. rewrite generateTravelPhoto_history.
  destruct (apiKey st) as [|c k].
  - exists []. rewrite app_nil_r. cbn. repeat split; lia.
  - match goal with
    | |- context [makeRequest ?key ?req 0 h] =>
        destruct (makeRequest_waits key req 0 h) as (trace & T & F & N & R)
    end.
    exists trace. split; [exact T |]. split; [lia |].
    unfold totalWait. destruct (waitsOf trace) as [|a [|b [|c0 l]]];
      cbn [fold_right length] in *; [lia | | | lia].
    + inversion F; subst. lia.
    + inversion F as [|? ? Fa F']; subst. inversion F'; subst. lia.
Qed.

(** Every way [handleGenerate] ends on a resolved location. *)
Lemma handleGenerate_ends st h file era year customPrompt style
  selected info :
  selectedLocation st = Some selected ->
  locationInfo st = Some info ->
  exists st' trace images,
    handleGenerate file era year customPrompt style (st, h) =
      (inr tt, (st', (h ++ trace)%list))
    /\ generatedImages st' = images
    /\ selectedLocation st' = selectedLocation st
    /\ locationInfo st' = locationInfo st
    /\ keptOrCleared st st'
    /\ (length (requestsOf trace) <= 6)%nat
    /\ 0 <= totalWait trace < 280000
    /\ ((status st' = complete /\ length images = 2%nat
         /\ errorMessage st' = None /\ sameCredential st st')
        \/ (status st' = error /\ (length images <= 1)%nat
            /\ exists m, errorMessage st' = Some m
                         /\ JS.truthy (Some m) = true)).
Proof.
  intros Hs Hi.
  destruct (readAsDataURL file) as [event | dataUrl] eqn:Hf.
  - rewrite (handleGenerate_unreadable st h file era year customPrompt
               style selected info event Hs Hi Hf).
    destruct (handleError_message event "Image generation failed"
                (generation st generating_image []) h)
      as (st' & m & R & M & T & S & I & L1 & L2 & KC & _).
    exists st', [], []. rewrite app_nil_r, R.
    repeat split; try assumption; cbn; try lia.
    right. repeat split; [exact S | cbn; lia |]. now exists m.
  - rewrite (handleGenerate_run st h file era year customPrompt style
               selected info dataUrl Hs Hi Hf).
    cbv zeta.
    set (take := shot st selected info era (JS.splitComma1 dataUrl) year
                   customPrompt
                   (match style with Some v => v | None => Realistic end)).
    destruct (shot_bounds st selected info era (JS.splitComma1 dataUrl) year
                customPrompt
                (match style with Some v => v | None => Realistic end)
                "Wide Angle Shot (Establishing Context)" h)
      as (t1 & T1 & Q1 & W1).
    fold take in T1.
    destruct (take "Wide Angle Shot (Establishing Context)" h)
      as [[err | image1] h1]; cbn [snd] in T1; subst h1.
    + destruct (handleError_message err "Image generation failed"
                  (generation st generating_image []) (h ++ t1)%list)
        as (st' & m & R & M & T & S & I & L1 & L2 & KC & _).
      exists st', t1, []. rewrite R.
      repeat split; try assumption; try lia.
      right. repeat split; [exact S | cbn; lia |]. now exists m.
    + destruct (shot_bounds st selected info era (JS.splitComma1 dataUrl)
                  year customPrompt
                  (match style with Some v => v | None => Realistic end)
                  "Medium Shot (Character Interaction)" (h ++ t1)%list)
        as (t2 & T2 & Q2 & W2).
      fold take in T2.
      destruct (take "Medium Shot (Character Interaction)" (h ++ t1)%list)
        as [[err | image2] h2]; cbn [snd] in T2; subst h2.
      * destruct (handleError_message err "Image generation failed"
                    (generation st generating_image [image1])
                    ((h ++ t1) ++ t2)%list)
          as (st' & m & R & M & T & S & I & L1 & L2 & KC & _).
        exists st', (t1 ++ t2)%list, [image1]. rewrite app_assoc, R.
        rewrite requestsOf_app, length_app, totalWait_app.
        repeat split; try assumption; try lia.
        right. repeat split; [exact S | cbn; lia |]. now exists m.
      * exists (generation st complete [image1; image2]), (t1 ++ t2)%list,
               [image1; image2].
        rewrite app_assoc, requestsOf_app, length_app, totalWait_app.
        repeat split; try reflexivity; try lia.
        -- now left.
        -- left. now repeat split.
Qed.

End HandlerFacts.

Section SelectionFacts.

Context `{Backend} `{Host}.

Lemma keptOrCleared_ok (before after : AppState) :
  keptOrCleared before after -> credentialOk before -> credentialOk after.
Proof.
  unfold keptOrCleared, credentialOk.
  intros [[K R] | [K R]] Ok Ready; [rewrite K; apply Ok; congruence |].
  congruence.
Qed.

(** [handleLocationSelect] once the key is ready. *)
Lemma handleLocationSelect_ready st h coords :
  apiKeyReady st = true ->
  handleLocationSelect coords (st, h) =
  match analyzeLocation (lat coords) (lng coords) (apiKey st) h with
  | (inr info, h1) =>
      (inr tt,
       ({| apiKey := apiKey st; apiKeyReady := apiKeyReady st;
           selectedLocation := Some coords; locationInfo := Some info;
           status := ready_to_generate; generatedImages := [];
           errorMessage := None; browser := browser st |}, h1))
  | (inl err, h1) =>
      handleError err "Failed to analyze location"
        ({| apiKey := apiKey st; apiKeyReady := apiKeyReady st;
            selectedLocation := Some coords; locationInfo := None;
            status := analyzing_location; generatedImages := [];
            errorMessage := None; browser := browser st |}, h1)
  end.
Proof.
  intros R. unfold handleLocationSelect.
  replace (negb (apiKeyReady st)) with false by now rewrite R.
  cbv [await try_catch call resolve setSelectedLocation setGeneratedImages
       setStatus setLocationInfo setErrorMessage update].
  cbn [apiKey apiKeyReady selectedLocation locationInfo status
       generatedImages errorMessage browser].
  now destruct (analyzeLocation (lat coords) (lng coords) (apiKey st) h)
    as [[err | info] h1].
Qed.

Lemma handleLocationSelect_credential st h coords :
  exists st' h',
    handleLocationSelect coords (st, h) = (inr tt, (st', h'))
    /\ keptOrCleared st st'.
Proof.
  destruct (apiKeyReady st) eqn:R.
  - rewrite (handleLocationSelect_ready st h coords R).
    destruct (analyzeLocation (lat coords) (lng coords) (apiKey st) h)
      as [[err | info] h1].
    + match goal with
      | |- context [handleError err ?msg (?s, h1)] =>
          destruct (handleError_message err msg s h1)
            as (st' & m & E & _ & _ & _ & _ & _ & _ & KC & _)
      end.
      exists st', h1. split; [exact E |]. exact KC.
    + eexists _, _. split; [reflexivity |]. now left.
  - exists st, h. split; [| now left].
    unfold handleLocationSelect. now rewrite R.
Qed.

End SelectionFacts.

(** X9.  Selecting a location while the key is ready (and, as the
    handlers maintain, not empty) sends exactly one request and always ends
    in [ready_to_generate] with the record the resolver returned, the
    earlier images and error message cleared and the credential
    untouched: a failure of the resolution never reaches the error
    state. *)
Theorem location_select_resolves `{Backend} `{Host} :
  forall st h coords,
  apiKeyReady st = true ->
  credentialOk st ->
  exists info,
    fst (analyzeLocation (lat coords) (lng coords) (apiKey st) h) = inr info
    /\ handleLocationSelect coords (st, h) =
       (inr tt,
        ({| apiKey := apiKey st; apiKeyReady := true;
            selectedLocation := Some coords; locationInfo := Some info;
            status := ready_to_generate; generatedImages := [];
            errorMessage := None; browser := browser st |},
         (h ++ [Sent (apiKey st)
                  (LocationRequest "gemini-2.5-flash"
                     (lat coords) (lng coords))])%list)).
Proof.
  intros st h coords R Ok.
  destruct (analyzeLocation_returns (lat coords) (lng coords) (apiKey st) h
              (Ok R)) as (info & A).
  exists info. rewrite (handleLocationSelect_ready st h coords R), A, R.
  now split.
Qed.

(** A click on the Eiffel Tower while the service is down. *)
Lemma location_select_resolves_witness :
  let down := failingBackend {| JS.message := Some "fetch failed";
                                JS.status := None |} in
  exists st' h',
    @handleLocationSelect down plainHost eiffel (readyState, []) =
      (inr tt, (st', h'))
    /\ status st' = ready_to_generate
    /\ locationInfo st' = Some fallbackLocation.
Proof.
  intros down.
  destruct (@location_select_resolves down plainHost readyState [] eiffel)
    as (info & A & E).
  - reflexivity.
  - intros _. discriminate.
  - eexists _, _. split; [exact E |].
    split; [reflexivity |]. cbn [locationInfo]. f_equal.
    vm_compute in A. injection A as <-. reflexivity.
Defined.

(** X10.  Once [clearApiKey] has run, the page is the key screen alone,
    and selecting a location or a nearby place changes nothing and sends
    nothing; the session (location, description, status, images, error
    message) is as it was. *)
Theorem cleared_key_gates_selection `{Backend} `{Host} :
  forall st h coords poi override,
  exists st',
    clearApiKey (st, h) = (inr tt, (st', h))
    /\ apiKey st' = "" /\ apiKeyReady st' = false
    /\ gemini_api_key (browser st') = None
    /\ sameSession st st'
    /\ App st' override = [KeyScreen]
    /\ handleLocationSelect coords (st', h) = (inr tt, (st', h))
    /\ handlePoiSelect poi (st', h) = (inr tt, (st', h)).
Proof.
  intros st h coords poi override. eexists. split; [reflexivity |].
  unfold sameSession. now repeat split.
Qed.

(** X11.  Every handler keeps the invariant that a ready component has
    a non-empty key: the manual submission, the initialisation, the
    clearing, the error handler, the selection of a location, the
    generation and the reset. *)
Theorem credential_invariant `{Backend} `{Host} :
  forall st h,
  credentialOk st ->
  (forall keyInput,
      credentialOk (fst (snd (handleManualKeySubmit keyInput (st, h)))))
  /\ (forall API_KEY hasSelectedApiKey,
        credentialOk
          (fst (snd (initApiKey API_KEY hasSelectedApiKey (st, h)))))
  /\ credentialOk (fst (snd (clearApiKey (st, h))))
  /\ (forall err defaultMsg,
        credentialOk (fst (snd (handleError err defaultMsg (st, h)))))
  /\ (forall coords,
        credentialOk (fst (snd (handleLocationSelect coords (st, h)))))
  /\ (forall file era year customPrompt style,
        credentialOk
          (fst (snd (handleGenerate file era year customPrompt style
                       (st, h)))))
  /\ credentialOk (fst (snd (handleReset (st, h)))).
Proof.
  intros st h Ok.
  split; [| split; [| split; [| split; [| split; [| split]]]]].
  - intros keyInput. unfold handleManualKeySubmit.
    destruct (trim keyInput) as [|c k] eqn:T; cbn; [exact Ok |].
    intros _. discriminate.
  - intros API_KEY hasSelectedApiKey. unfold initApiKey.
    destruct (aistudio (browser st)), hasSelectedApiKey as [e | [|]],
      API_KEY as [[|c k] |], (gemini_api_key (browser st)) as [[|d l] |];
      cbn; try exact Ok; intros _; discriminate.
  - cbn. intros R. discriminate R.
  - intros err defaultMsg.
    destruct (handleError_message err defaultMsg st h)
      as (st' & m & E & _ & _ & _ & _ & _ & _ & KC & _).
    rewrite E. cbn [fst snd]. exact (keptOrCleared_ok st st' KC Ok).
  - intros coords.
    destruct (handleLocationSelect_credential st h coords)
      as (st' & h' & E & KC).
    rewrite E. cbn [fst snd]. exact (keptOrCleared_ok st st' KC Ok).
  - intros file era year customPrompt style.
    destruct (selectedLocation st) as [selected |] eqn:Hs.
    + destruct (locationInfo st) as [info |] eqn:Hi.
      * destruct (handleGenerate_ends st h file era year customPrompt style
                    selected info Hs Hi)
          as (st' & trace & images & E & _ & _ & _ & KC & _).
        rewrite E. cbn [fst snd]. exact (keptOrCleared_ok st st' KC Ok).
      * rewrite handleGenerate_idle by (now right). exact Ok.
    + rewrite handleGenerate_idle by (now left). exact Ok.
  - cbn. exact Ok.
Qed.

(** The invariant on the state of scenario A, after a rejected key. *)
Lemma credential_invariant_witness :
  let rejected :=
    failingBackend
      {| JS.message := Some "API key not valid. [API_KEY_INVALID]";
         JS.status := None |} in
  credentialOk
    (fst (snd (@handleGenerate rejected plainHost selfie PAST (Some "1889")
                 None (Some Cinematic) (readyState, [])))).
Proof.
  intros rejected.
  assert (Ok : credentialOk readyState) by (intros _; discriminate).
  destruct (@credential_invariant rejected plainHost readyState [] Ok)
    as (_ & _ & _ & _ & _ & G & _).
  apply G.
Defined.

(** X12.  On a resolved location, [handleGenerate] always ends, in one
    of two ways: with status [complete], exactly two images and no error
    message, the credential untouched; or with status [error], at most one
    image and a non-empty error message.  Either way the location and its
    description are kept, at most six requests are sent and less than 280
    seconds are spent waiting. *)
Theorem generate_ends_complete_or_error `{Backend} `{Host} :
  forall st h file era year customPrompt style selected info,
  selectedLocation st = Some selected ->
  locationInfo st = Some info ->
  exists st' h',
    handleGenerate file era year customPrompt style (st, h) =
      (inr tt, (st', h'))
    /\ selectedLocation st' = Some selected
    /\ locationInfo st' = Some info
    /\ (length (requestsOf (since h h')) <= 6)%nat
    /\ 0 <= totalWait (since h h') < 280000
    /\ ((status st' = complete
         /\ length (generatedImages st') = 2%nat
         /\ errorMessage st' = None
         /\ sameCredential st st')
        \/ (status st' = error
            /\ (length (generatedImages st') <= 1)%nat
            /\ exists m, errorMessage st' = Some m /\ m <> "")).
Proof.
  intros st h file era year customPrompt style selected info Hs Hi.
  destruct (handleGenerate_ends st h file era year customPrompt style
              selected info Hs Hi)
    as (st' & trace & images & E & I & L1 & L2 & _ & Q & W & D).
  exists st', (h ++ trace)%list. rewrite since_app.
  split; [exact E |]. split; [congruence |]. split; [congruence |].
  split; [exact Q |]. split; [exact W |]. rewrite I.
  destruct D as [D | (S & L & m & M & T)]; [now left |].
  right. split; [exact S |]. split; [exact L |]. exists m.
  split; [exact M |]. intros ->. discriminate T.
Qed.

(** Scenario A on a service that always answers with status 429. *)
Lemma generate_ends_complete_or_error_witness :
  let busy := failingBackend {| JS.message := Some "Too many requests";
                                JS.status := Some 429 |} in
  exists st' h',
    @handleGenerate busy plainHost selfie PAST (Some "1889") None
      (Some Cinematic) (readyState, []) = (inr tt, (st', h'))
    /\ status st' = error
    /\ length (requestsOf h') = 3%nat
    /\ totalWait h' = 9000.
Proof.
  intros busy.
  destruct (@generate_ends_complete_or_error busy plainHost readyState []
              selfie PAST (Some "1889") None (Some Cinematic) eiffel
              eiffelInfo eq_refl eq_refl)
    as (st' & h' & E & _ & _ & _ & _ & _).
  exists st', h'. split; [exact E |].
  vm_compute in E. injection E as <- <-. now repeat split.
Defined.

(** X13.  [handleGenerate] does nothing and sends nothing while no
    location is selected or no description is present.  When the photo
    cannot be read, it sends nothing either and ends with status [error],
    an error message and no image. *)
Theorem generate_guards `{Backend} `{Host} :
  forall st h file era year customPrompt style,
  (selectedLocation st = None \/ locationInfo st = None ->
   handleGenerate file era year customPrompt style (st, h) =
     (inr tt, (st, h)))
  /\ (forall selected info event,
        selectedLocation st = Some selected ->
        locationInfo st = Some info ->
        readAsDataURL file = inl event ->
        exists st' m,
          handleGenerate file era year customPrompt style (st, h) =
            (inr tt, (st', h))
          /\ status st' = error
          /\ errorMessage st' = Some m
          /\ generatedImages st' = []
          /\ selectedLocation st' = Some selected
          /\ locationInfo st' = Some info).
Proof.
  intros st h file era year customPrompt style. split.
  - apply handleGenerate_idle.
  - intros selected info event Hs Hi Hf.
    rewrite (handleGenerate_unreadable st h file era year customPrompt
               style selected info event Hs Hi Hf).
    destruct (handleError_message event "Image generation failed"
                (generation st generating_image []) h)
      as (st' & m & R & M & _ & S & I & L1 & L2 & _).
    cbn in I, L1, L2.
    exists st', m. repeat split; try assumption; congruence.
Qed.

(** Generation before any click on the map, and with a broken file. *)
Lemma generate_guards_witness :
  let fresh :=
    {| apiKey := "secret"; apiKeyReady := true; selectedLocation := None;
       locationInfo := None; status := idle; generatedImages := [];
       errorMessage := None;
       browser := {| gemini_api_key := None; aistudio := false;
                     openSelectKey_calls := 0 |} |} in
  let broken :=
    {| readAsDataURL := inl {| JS.message := None; JS.status := None |} |} in
  @handleGenerate (constantBackend (imageResponse "UE5H")) plainHost selfie
    PAST None None None (fresh, []) = (inr tt, (fresh, []))
  /\ exists st',
       @handleGenerate (constantBackend (imageResponse "UE5H")) plainHost
         broken PAST None None None (readyState, []) = (inr tt, (st', []))
       /\ status st' = error.
Proof.
  intros fresh broken.
  destruct (@generate_guards (constantBackend (imageResponse "UE5H"))
              plainHost fresh [] selfie PAST None None None) as [G _].
  destruct (@generate_guards (constantBackend (imageResponse "UE5H"))
              plainHost readyState [] broken PAST None None None)
    as [_ U].
  split; [apply G; now left |].
  destruct (U eiffel eiffelInfo _ eq_refl eq_refl eq_refl)
    as (st' & m & E & S & _).
  now exists st'.
Defined.

(** X14.  [handleReset] returns to [idle] with no location, description,
    image or error message, keeps the credential and touches nothing
    else; a second reset changes nothing, a generation started afterwards
    does nothing, and the page of a ready component then shows the start
    prompt alone. *)
Theorem reset_returns_to_idle `{Backend} `{Host} :
  forall st h,
  exists st',
    handleReset (st, h) = (inr tt, (st', h))
    /\ status st' = idle
    /\ selectedLocation st' = None
    /\ locationInfo st' = None
    /\ generatedImages st' = []
    /\ errorMessage st' = None
    /\ sameCredential st st'
    /\ handleReset (st', h) = (inr tt, (st', h))
    /\ (forall file era year customPrompt style,
          handleGenerate file era year customPrompt style (st', h) =
            (inr tt, (st', h)))
    /\ (forall override,
          apiKeyReady st = true -> App st' override = [StartPrompt]).
Proof.
  intros st h. eexists. split; [reflexivity |].
  unfold sameCredential. repeat split.
  intros override R. unfold App. cbn. now rewrite R.
Qed.

(* ===================================================================== *)
(** ** Entering and finding the key *)
(* ===================================================================== *)

Section TrimFacts.





End TrimFacts.


(** X16.  The initialisation takes the key from the environment when
    there is a non-empty one, otherwise from the browser storage when it
    holds a non-empty one, and otherwise changes nothing; the presence of
    the key selector and what it answers, or throws, make no difference.
    Session and storage are untouched. *)
Theorem init_key_precedence :
  forall API_KEY hasSelectedApiKey st h,
  let found :=
    match API_KEY with
    | Some (String c k) => Some (String c k)
    | _ =>
        match gemini_api_key (browser st) with
        | Some (String c k) => Some (String c k)
        | _ => None
        end
    end in
  exists st',
    initApiKey API_KEY hasSelectedApiKey (st, h) = (inr tt, (st', h))
    /\ sameSession st st'
    /\ browser st' = browser st
    /\ match found with
       | Some key => apiKey st' = key /\ apiKeyReady st' = true
       | None => st' = st
       end.
Proof.
  intros API_KEY hasSelectedApiKey st h found. subst found.
  unfold initApiKey, sameSession.
  destruct (aistudio (browser st)), hasSelectedApiKey as [e | [|]],
    API_KEY as [[|c k] |], (gemini_api_key (browser st)) as [[|d l] |];
    cbn; eexists; (split; [reflexivity |]); now repeat split.
Qed.

(* ===================================================================== *)
(** ** What the page offers *)
(* ===================================================================== *)

(** X17.  In the sidebar of a selected location, the generation form is
    rendered only together with the location card, never together with
    the list of nearby places or with the regenerate button; the list of
    nearby places and the location card are never rendered together; and
    the regenerate button is rendered only in status [complete] with at
    least one image. *)
Theorem sidebar_form_exclusive :
  forall coords locationInfo st images message override,
  let page :=
    Sidebar (Some coords) locationInfo st images message override in
  (shows page GenerationForm = true ->
   shows page LocationCard = true
   /\ shows page PoiList = false
   /\ shows page RegenerateButton = false
   /\ images = [])
  /\ (shows page PoiList = true -> shows page LocationCard = false)
  /\ (shows page RegenerateButton = true ->
      st = complete /\ images <> []).
Proof.
  intros coords locationInfo st images message override page. subst page.
  unfold Sidebar, showsGenerationForm, showsPoiList, showsLocation,
    isVagueState.
  destruct locationInfo as [info |]; [destruct (isVague info) as [[|] |] |];
    destruct override, images as [|image [|image2 rest]], st,
      (JS.truthy message);
    cbn; repeat split; intros; try discriminate; try reflexivity;
    try congruence.
Qed.

Section PageFacts.

Context `{Backend} `{Host}.

(** The page of a ready component after a generation. *)
Lemma page_after_generation st (override : bool) coords info m :
  apiKeyReady st = true ->
  selectedLocation st = Some coords ->
  locationInfo st = Some info ->
  (status st = complete -> length (generatedImages st) = 2%nat ->
   shows (App st override) RegenerateButton = true
   /\ shows (App st override) GenerationForm = false
   /\ shows (App st override) ResultsPanel = true)
  /\ (status st = error -> errorMessage st = Some m ->
      JS.truthy (Some m) = true ->
      shows (App st override) ErrorBanner = true
      /\ shows (App st override) RegenerateButton = false
      /\ (forall image, generatedImages st = [image] ->
            shows (App st override) GenerationForm = false
            /\ shows (App st override) ResultsPanel = true)
      /\ (generatedImages st = [] ->
            shows (App st override) GenerationForm =
              negb (holds (isVagueState (Some info) override []))
            /\ shows (App st override) ResultsPanel = false)).
Proof.
  intros R Hs Hi. unfold App. rewrite R, Hs, Hi. cbn [negb].
  unfold Sidebar, showsGenerationForm, showsPoiList, showsLocation,
    isVagueState.
  split.
  - intros -> L.
    destruct (generatedImages st) as [|a [|b [|c l]]]; try discriminate L.
    destruct (isVague info) as [[|] |], override,
      (JS.truthy (errorMessage st)); cbn; now repeat split.
  - intros -> -> T. rewrite T.
    split; [| split; [| split]].
    + destruct (isVague info) as [[|] |], override,
        (generatedImages st) as [|a l]; reflexivity.
    + destruct (isVague info) as [[|] |], override,
        (generatedImages st) as [|a l]; reflexivity.
    + intros image ->.
      destruct (isVague info) as [[|] |], override; now split.
    + intros ->.
      destruct (isVague info) as [[|] |], override; now split.
Qed.

End PageFacts.

(** X18.  After a generation on a resolved location, with the key still
    ready: a complete run offers the regenerate button and not the form; a
    run that failed at the first shot shows the error and offers the form
    again (unless the location is vague and not overridden); a run that
    failed at the second shot shows the error and the first image, and
    offers neither the form nor the regenerate button. *)
Theorem page_after_generate `{Backend} `{Host} :
  forall st h file era year customPrompt style selected info override,
  selectedLocation st = Some selected ->
  locationInfo st = Some info ->
  let after :=
    fst (snd (handleGenerate file era year customPrompt style (st, h))) in
  let page := App after override in
  apiKeyReady after = true ->
  (status after = complete
   /\ shows page RegenerateButton = true
   /\ shows page GenerationForm = false)
  \/ (status after = error
      /\ generatedImages after = []
      /\ shows page ErrorBanner = true
      /\ shows page RegenerateButton = false
      /\ shows page GenerationForm =
         negb (holds (isVagueState (Some info) override [])))
  \/ (status after = error
      /\ length (generatedImages after) = 1%nat
      /\ shows page ErrorBanner = true
      /\ shows page ResultsPanel = true
      /\ shows page RegenerateButton = false
      /\ shows page GenerationForm = false).
Proof.
  intros st h file era year customPrompt style selected info override
         Hs Hi after page R.
  destruct (handleGenerate_ends st h file era year customPrompt style
              selected info Hs Hi)
    as (st' & trace & images & E & I & L1 & L2 & _ & _ & _ & D).
  subst page after. rewrite E in *. cbn [fst snd] in *.
  rewrite Hs in L1. rewrite Hi in L2.
  destruct D as [(S & L & _) | (S & L & m & M & T)].
  - left. rewrite <- I in L.
    destruct (page_after_generation st' override selected info "" R L1 L2)
      as [P _].
    destruct (P S L) as (P1 & P2 & _). now repeat split.
  - destruct (page_after_generation st' override selected info m R L1 L2)
      as [_ P].
    destruct (P S M T) as (P1 & P2 & P3 & P4).
    rewrite <- I in L.
    destruct (generatedImages st') as [|image [|b l]] eqn:G;
      [| | cbn in L; lia].
    + right. left. destruct (P4 eq_refl) as [P5 _]. now repeat split.
    + right. right. destruct (P3 image eq_refl) as [P5 P6].
      now repeat split.
Qed.

(** The second shot of scenario A yields no image. *)
Lemma page_after_generate_witness :
  let after :=
    fst (snd (@handleGenerate (onceBackend (imageResponse "UE5H")) plainHost
                selfie PAST (Some "1889") None (Some Cinematic)
                (readyState, []))) in
  status after = error
  /\ shows (App after false) GenerationForm = false
  /\ shows (App after false) RegenerateButton = false.
Proof.
  intros after.
  destruct (@page_after_generate (onceBackend (imageResponse "UE5H"))
              plainHost readyState [] selfie PAST (Some "1889") None
              (Some Cinematic) eiffel eiffelInfo false eq_refl eq_refl)
    as [(S & _) | [(_ & G & _) | (S & _ & _ & _ & P1 & P2)]].
  - vm_compute. reflexivity.
  - exfalso. vm_compute in S. discriminate S.
  - exfalso. vm_compute in G. discriminate G.
  - now repeat split.
Defined.



(* ===================================================================== *)
(** ** The quota report *)
(* ===================================================================== *)



(* ===================================================================== *)
(** ** What every prompt says *)
(* ===================================================================== *)

Section TemplateFacts.

Lemma template_app (xs ys : list string) :
  JS.template (xs ++ ys) = JS.template xs ++ JS.template ys.
Proof.
  induction xs as [|x xs IH]; [reflexivity |].
  cbn [app]. now rewrite !template_cons, IH, append_assoc.
Qed.

(** A template contains the text that runs from inside one chunk, over
    the chunks that follow, into a later chunk. *)
Lemma includes_template_span (before k : string) (mids : list string)
  (l after : string) (ds : list string) :
  JS.includes
    (JS.template ((before ++ k) :: mids ++ (l ++ after) :: ds))
    (JS.template (k :: mids ++ [l])) = true.
Proof.
  apply includes_iff. exists before, (after ++ JS.template ds).
  rewrite !template_cons, !template_app, !template_cons, !append_assoc.
  reflexivity.
Qed.

End TemplateFacts.

(** Skip chunks of a template. *)
Tactic Notation "skip_chunks" integer(n) :=
  do n (rewrite template_cons; apply includes_app_r).

(** The text starts in the first chunk of the template, which ends with
    [k], and ends with [l]. *)
Ltac span_from k mids l :=
  match goal with
  | |- JS.includes (JS.template (?a :: _)) _ = true =>
      let n := eval vm_compute in (String.length a - String.length k)%nat in
      let b := eval vm_compute in (String.substring 0 n a) in
      eapply (includes_template_span b k mids l)
  end.

(** X21.  Every prompt states the location name with both coordinates,
    the time description, the weather, the shot variation, the custom text
    between quotes (or, when there is none, the sentence that says so),
    the instruction to keep the face and to dress for the time and the
    weather, the visual style and the photographic requirements. *)
Theorem prompt_always_includes `{Host} :
  forall lat lng locationName era weatherCondition year customPrompt
         style variation,
  let prompt :=
    textPrompt lat lng locationName era weatherCondition year customPrompt
               style variation in
  let timeDescription := fst (yearLogic era lat lng year) in
  Forall (fun clause => JS.includes prompt clause = true)
    [ JS.template ["- Location: "; locationName;
                   " (Lat: "; Number_toString lat;
                   ", Lng: "; Number_toString lng; ")."];
      JS.template ["- Era/Year: "; timeDescription; "."];
      JS.template ["- Weather: "; weatherCondition; "."];
      JS.template ["- Shot Variation: "; variation;
                   " (Ensure this image has a distinct composition)."];
      JS.template [JS.dquote;
                   JS.orElse customPrompt
                     "No specific scene instructions provided.";
                   JS.dquote];
      "Insert the person from the reference image.";
      "Maintain facial identity strictly.";
      JS.template ["CHANGE CLOTHING: The subject MUST wear clothing accurate to ";
                   timeDescription; " and "; weatherCondition; "."];
      JS.template ["- Visual Style: "; style; ". "];
      "Photorealistic, 8k resolution, cinematic lighting.";
      "No text, borders, or frames." ].
Proof.
  intros lat lng locationName era weatherCondition year customPrompt style
         variation prompt timeDescription.
  subst prompt timeDescription. unfold textPrompt.
  destruct (yearLogic era lat lng year) as [td hi]. cbn [fst].
  repeat constructor.
  - span_from "- Location: "
      [locationName; " (Lat: "; Number_toString lat; ", Lng: ";
       Number_toString lng] ").".
  - skip_chunks 6. span_from "- Era/Year: " [td] ".".
  - skip_chunks 8. span_from "- Weather: " [weatherCondition] ".".
  - skip_chunks 10.
    span_from "- Shot Variation: " [variation]
      " (Ensure this image has a distinct composition).".
  - skip_chunks 13.
    apply (includes_template_span "" JS.dquote
             [JS.orElse customPrompt
                "No specific scene instructions provided."]
             JS.dquote "").
  - skip_chunks 18. rewrite template_cons. apply includes_app_l.
    reflexivity.
  - skip_chunks 18. rewrite template_cons. apply includes_app_l.
    reflexivity.
  - skip_chunks 18.
    span_from "CHANGE CLOTHING: The subject MUST wear clothing accurate to "
      [td; " and "; weatherCondition] ".".
  - skip_chunks 22. span_from "- Visual Style: " [style] ". ".
  - skip_chunks 24. rewrite template_cons. apply includes_app_l.
    reflexivity.
  - skip_chunks 24. rewrite template_cons. apply includes_app_l.
    reflexivity.
Qed.

(* ===================================================================== *)
(** ** The further properties on the states of scenario A *)
(* ===================================================================== *)

(** A reset after the Eiffel Tower has been resolved. *)
Lemma reset_returns_to_idle_witness :
  exists st',
    @handleReset (readyState, []) = (inr tt, (st', []))
    /\ status st' = idle
    /\ apiKey st' = "secret"
    /\ App st' false = [StartPrompt].
Proof.
  destruct (@reset_returns_to_idle (constantBackend (imageResponse "UE5H"))
              plainHost readyState [])
    as (st' & E & S & _ & _ & _ & _ & (K & _) & _ & _ & P).
  exists st'. split; [exact E |]. split; [exact S |].
  split; [exact K |]. apply P. reflexivity.
Defined.


(** A vague spot, before and after the override. *)
Lemma sidebar_form_exclusive_witness :
  let ocean :=
    {| name := "North Atlantic Ocean";
       description := "Open water.";
       weather := {| temp := "12 C"; condition := "Windy" |};
       clothingRecommendation := "Raincoat";
       isVague := Some true;
       nearbyPOIs := None |} in
  Sidebar (Some eiffel) (Some ocean) ready_to_generate [] None false =
    [PoiList]
  /\ Sidebar (Some eiffel) (Some ocean) ready_to_generate [] None true =
     [LocationCard; GenerationForm]
  /\ shows (Sidebar (Some eiffel) (Some ocean) ready_to_generate [] None true)
           PoiList = false.
Proof.
  intros ocean.
  destruct (sidebar_form_exclusive eiffel (Some ocean) ready_to_generate []
              None true) as ((_ & P & _) & _).
  - reflexivity.
  - split; [reflexivity |]. split; [reflexivity | exact P].
Defined.
